(** * certstream-slack: the certificate watcher of [main.go]

    A shallow embedding of the message pipeline of [main.go]: the start-up
    checks, the read loop over the certstream websocket, the classification
    of each decoded message, the domain filter, and the Slack notification
    that is built and posted for a matching certificate.

    Go strings are byte strings, here [string] (a list of 8-bit [ascii]);
    Go's [(value, error)] results are pairs [T * option error]; the side
    effects of the process (log entries, webhook posts) are collected in a
    trace by a small state monad. *)

From Stdlib Require Import String Ascii List Bool Arith ZArith Lia.
From Stdlib Require Import Sorting.Sorted Sorting.Permutation.
From Stdlib Require Import DecimalString.
From Stdlib Require QArith.QArith_base.
Import ListNotations.
#[local] Set Warnings "-register-all".
Local Open Scope string_scope.
Local Open Scope list_scope.

(** ** Byte strings: the functions of Go's [strings], [sort] and [fmt] in use *)

Module GoStrings.

(** [strings.Join(elems, sep)]. *)
Fixpoint Join (elems : list string) (sep : string) : string :=
  match elems with
  | [] => ""
  | [e] => e
  | e :: rest => e ++ sep ++ Join rest sep
  end.

(** [strings.HasSuffix(s, suffix)]. *)
Definition HasSuffix (s suffix : string) : bool :=
  let n := String.length s in
  let m := String.length suffix in
  Nat.leb m n && String.eqb (substring (n - m) m s) suffix.

(** [strings.Contains(s, substr)]. *)
Fixpoint Contains (s substr : string) : bool :=
  String.prefix substr s ||
  match s with
  | EmptyString => false
  | String _ rest => Contains rest substr
  end.

(** [strings.Replace(s, old, new, -1)] for a non-empty [old]: every
    non-overlapping occurrence of [old], found from left to right, is
    replaced by [new].  [skip] counts the bytes of a matched occurrence
    that are still to be passed over. *)
Fixpoint replaceFrom (old new : string) (skip : nat) (s : string) : string :=
  match s with
  | EmptyString => ""
  | String c rest =>
      match skip with
      | S k => replaceFrom old new k rest
      | O =>
          if String.prefix old s
          then new ++ replaceFrom old new (String.length old - 1) rest
          else String c (replaceFrom old new 0 rest)
      end
  end.

Definition Replace (s old new : string) : string := replaceFrom old new 0 s.

(** Number of occurrences of the byte [c] in [s] ([strings.Count] with a
    one-byte separator). *)
Fixpoint Count (s : string) (c : ascii) : nat :=
  match s with
  | EmptyString => 0
  | String x rest => (if Ascii.eqb x c then 1 else 0) + Count rest c
  end.

(** The bytes of [s] other than [c], in order. *)
Fixpoint without (c : ascii) (s : string) : string :=
  match s with
  | EmptyString => ""
  | String x rest => if Ascii.eqb x c then without c rest else String x (without c rest)
  end.

(** The verb [%d] of [fmt.Sprintf] on an [int]: decimal digits, with a
    leading minus sign on a negative number. *)
Definition Sprintf_d (n : Z) : string := NilZero.string_of_int (Z.to_int n).

(** [sort.Strings]: sorts in increasing order of Go's [<] on strings, the
    byte-wise lexicographic order ([String.ltb]).  Equal strings cannot be
    told apart, so the outcome does not depend on the sorting algorithm
    (lemma [sorted_unique] below); insertion sort stands for it. *)
Fixpoint insert (x : string) (l : list string) : list string :=
  match l with
  | [] => [x]
  | y :: l' => if String.ltb y x then y :: insert x l' else x :: l
  end.

Fixpoint sort_Strings (l : list string) : list string :=
  match l with
  | [] => []
  | x :: l' => insert x (sort_Strings l')
  end.

(** [a <= b] in the byte-wise lexicographic order. *)
Definition le (a b : string) : Prop := String.leb a b = true.

End GoStrings.
Import GoStrings.

(** ** Errors *)

(** Go [error] values.  The first five are the failures of a path lookup in
    a decoded message; [External] stands for the errors of the regexp
    compiler, of the websocket and of the webhook client, of which only the
    presence matters to [main]. *)
Inductive error : Type :=
| MissingField (key : string)
| NotAnObject (key : string)
| NilValue (key : string)
| NotAString
| NotAnArray
| External (reason : string).

(** ** Decoded messages and their queries *)

(** The value [conn.ReadJSON] decodes into an [interface{}]: Go's generic
    JSON value.  JSON [null] decodes to [nil]; a JSON number decodes to a
    finite [float64], a rational; an object decodes to a
    [map[string]interface{}], here the association list of its fields. *)
Inductive JSON : Type :=
| JNull
| JBool (b : bool)
| JNumber (x : QArith_base.Q)
| JString (s : string)
| JArray (items : list JSON)
| JObject (fields : list (string * JSON)).

Module jsonq.

(** Modelled from the spec: the queries of the [jsonq] package, which
    [main] imports and whose code is not among the sources.  The spec has
    the message as an untyped nested structure queried by path, a field
    read as missing or malformed when the lookup fails, and an empty value
    in the place of a field that could not be extracted. *)
Fixpoint field (key : string) (fields : list (string * JSON)) : option JSON :=
  match fields with
  | [] => None
  | (k, v) :: rest => if String.eqb k key then Some v else field key rest
  end.

(** Modelled from the spec: one step of a path lookup; the step fails on a
    value that is not an object and on an object without the field.  (The
    keys that [main] looks up are field names, none of them an array index.) *)
Definition query (blob : JSON) (key : string) : JSON * option error :=
  match blob with
  | JObject fields =>
      match field key fields with
      | Some v => (v, None)
      | None => (JNull, Some (MissingField key))
      end
  | _ => (JNull, Some (NotAnObject key))
  end.

(** Modelled from the spec: the lookup of a whole path, from the root of
    the message; a path that ends on [null] counts as a missing value. *)
Fixpoint descend (val : JSON) (path : list string) : JSON * option error :=
  match path with
  | [] => (val, None)
  | key :: rest =>
      match query val key with
      | (v, None) => descend v rest
      | (_, Some e) => (JNull, Some e)
      end
  end.

Definition rquery (blob : JSON) (path : list string) : JSON * option error :=
  match descend blob path with
  | (_, Some e) => (JNull, Some e)
  | (JNull, None) => (JNull, Some (NilValue (last path "")))
  | (v, None) => (v, None)
  end.

Definition stringFromInterface (val : JSON) : string * option error :=
  match val with
  | JString s => (s, None)
  | _ => ("", Some NotAString)
  end.

(** Modelled from the spec: [jq.String(path...)], the string at [path], or
    the empty string and an error. *)
Definition String (blob : JSON) (path : list string) : string * option error :=
  match rquery blob path with
  | (_, Some e) => ("", Some e)
  | (val, None) => stringFromInterface val
  end.

Fixpoint stringsFromInterfaces (items : list JSON) : list string * option error :=
  match items with
  | [] => ([], None)
  | val :: rest =>
      match stringFromInterface val with
      | (_, Some e) => ([], Some e)
      | (s, None) =>
          match stringsFromInterfaces rest with
          | (_, Some e) => ([], Some e)
          | (ss, None) => (s :: ss, None)
          end
      end
  end.

(** Modelled from the spec: [jq.ArrayOfStrings(path...)], the strings of
    the array at [path], in order, or an error when the value is missing,
    is not an array, or holds an item that is not a string.  ([main] does
    not look at the list that comes with an error.) *)
Definition ArrayOfStrings (blob : JSON) (path : list string) : list string * option error :=
  match rquery blob path with
  | (_, Some e) => ([], Some e)
  | (JArray items, None) => stringsFromInterfaces items
  | (_, None) => ([], Some NotAnArray)
  end.

End jsonq.

(** ** The compiled domain pattern *)

(** A [*regexp.Regexp]: the source text of the pattern ([String()]) and the
    unanchored match it decides on a string ([MatchString]).  Go's regexp
    engine is not part of this program; the pipeline is stated for every
    such predicate. *)
Record Regexp : Type := {
  source : string;
  MatchString : string -> bool
}.

(** The compiled form of a pattern made of literal characters only: such a
    pattern matches the strings that contain it. *)
Definition literal (pattern : string) : Regexp :=
  {| source := pattern; MatchString := fun s => Contains s pattern |}.

(** ** Word series *)

Module english.

(** Modelled from the spec: [english.OxfordWordSeries] of the go-humanize
    package, whose code is not among the sources.  The spec has the list
    joined into a natural-language series, comma-separated with the final
    item joined by the conjunction, two items joined by the conjunction
    alone, one item alone; the series is the one with the serial (Oxford)
    comma that the function is named after. *)
Definition OxfordWordSeries (words : list string) (conjunction : string) : string :=
  match words with
  | [] => ""
  | [w] => w
  | [w1; w2] => Join words (" " ++ conjunction ++ " ")
  | _ => Join (removelast words) ", " ++ ", " ++ conjunction ++ " " ++ last words ""
  end.

(** Modelled from the spec: the same series without the serial comma
    ([english.WordSeries]), the other reading of the spec's sentence.
    [main] does not call it. *)
Definition WordSeries (words : list string) (conjunction : string) : string :=
  match words with
  | [] => ""
  | [w] => w
  | _ => Join (removelast words) ", " ++ " " ++ conjunction ++ " " ++ last words ""
  end.

End english.

(** ** Effects of the process *)

(** The [slack.Payload] of a post; [main] sets its [Text] only. *)
Record Payload : Type := { Text : string }.

(** A log entry of the logrus logger: its level, the error attached by
    [WithError], the fields attached by [WithField], and the message. *)
Inductive Level : Type := InfoLevel | ErrorLevel | FatalLevel.

Record Entry : Type := {
  level : Level;
  cause : option error;
  fields : list (string * string);
  message : string
}.

(** What the process does to the outside: it writes a log entry, or it
    posts a payload to a webhook ([slack.Send(webhookUrl, proxy, payload)]). *)
Inductive Effect : Type :=
| Log (entry : Entry)
| Post (webhookUrl proxy : string) (payload : Payload).

(** How a run ends: the process exits with a status, or it is blocked in
    [conn.ReadJSON] waiting for the next message of the feed. *)
Inductive Outcome : Type :=
| Exit (status : Z)
| Blocked.

(** The state threaded through the program: the effects so far, oldest
    first, and the number of webhook posts attempted. *)
Record Proc : Type := {
  trace : list Effect;
  posts : nat
}.

Definition Prog (A : Type) : Type := Proc -> A * Proc.

Definition ret {A : Type} (a : A) : Prog A := fun p => (a, p).

Definition bind {A B : Type} (c : Prog A) (k : A -> Prog B) : Prog B :=
  fun p => let (a, p') := c p in k a p'.

Declare Scope prog_scope.
Delimit Scope prog_scope with prog.
Notation "x <- c ;; k" := (bind c (fun x => k))
  (at level 61, c at next level, right associativity) : prog_scope.
Notation "c ;; k" := (bind c (fun _ => k))
  (at level 61, right associativity) : prog_scope.
Local Open Scope prog_scope.

Definition emit (e : Effect) : Prog unit :=
  fun p => (tt, {| trace := trace p ++ [e]; posts := posts p |}).

(** [log.WithError(err).WithField(...).Error(msg)] and the like. *)
Definition log_Info (fs : list (string * string)) (msg : string) : Prog unit :=
  emit (Log {| level := InfoLevel; cause := None; fields := fs; message := msg |}).

Definition log_Error (err : error) (fs : list (string * string)) (msg : string) : Prog unit :=
  emit (Log {| level := ErrorLevel; cause := Some err; fields := fs; message := msg |}).

(** [log.Fatal]: the entry is written and the process exits with status 1;
    nothing after the call runs. *)
Definition log_Fatal (err : option error) (msg : string) : Prog Outcome :=
  emit (Log {| level := FatalLevel; cause := err; fields := []; message := msg |}) ;;
  ret (Exit 1).

(** [for _, x := range xs { body x }]. *)
Fixpoint for_range {A : Type} (xs : list A) (body : A -> Prog unit) : Prog unit :=
  match xs with
  | [] => ret tt
  | x :: rest => body x ;; for_range rest body
  end.

Definition certStreamURL : string := "wss://certstream.calidog.io".

(** Length of a slice as a Go [int]; a slice has fewer than [2^63]
    elements, so the differences of lengths taken below do not wrap. *)
Definition len {A : Type} (l : list A) : Z := Z.of_nat (length l).

Section Pipeline.

(** The webhook client: the errors returned by the [k]-th call of
    [slack.Send] of the run (counted from 0). *)
Variable sink : nat -> list error.

(** [webhookURL] and [domainRegex]: set once by [main] before the loop. *)
Variable webhookURL : string.
Variable domainRegex : Regexp.

Definition slack_Send (webhookUrl proxy : string) (payload : Payload) : Prog (list error) :=
  fun p => (sink (posts p),
            {| trace := trace p ++ [Post webhookUrl proxy payload]; posts := S (posts p) |}).

(** Lines 84-91: the matching domains, each wrapped in backticks, in the
    order of [domains]. *)
Definition collect (domains : list string) : list string :=
  fold_left
    (fun matches domain =>
       if negb (MatchString domainRegex domain)
       then matches
       else matches ++ ["`" ++ domain ++ "`"]%string)
    domains [].

(** Lines 98-106: the matches sorted, then the count of the other domains. *)
Definition series (domains matches : list string) : list string :=
  let matches := sort_Strings matches in
  let additionalDomains := (len domains - len matches)%Z in
  if (additionalDomains >? 0)%Z
  then matches ++ [Sprintf_d additionalDomains ++ " others"]%string
  else matches.

(** Line 113. *)
Definition certURL (fingerprint : string) : string :=
  ("https://crt.sh/?q=" ++ Replace fingerprint ":" "")%string.

(** Lines 116-122. *)
Definition payloadFor (matches : list string) (certURL : string) : Payload :=
  {| Text := ("Found matching certificate for "
              ++ english.OxfordWordSeries matches "and" ++ ": " ++ certURL)%string |}.

(** Lines 69-125: the body of the loop on one decoded message.  Every
    [continue] of the source ends the body. *)
Definition iteration (msg : JSON) : Prog unit :=
  let jq := msg in
  let (t, _) := jsonq.String jq ["message_type"] in
  if negb (t =? "certificate_update")%string then ret tt else
  let (domains, err) := jsonq.ArrayOfStrings jq ["data"; "leaf_cert"; "all_domains"] in
  match err with
  | Some err => log_Error err [] "couldn't get domains"
  | None =>
      let matches := collect domains in
      if (len matches =? 0)%Z then ret tt else
      let matches := series domains matches in
      let (fingerprint, err) := jsonq.String jq ["data"; "leaf_cert"; "fingerprint"] in
      match err with
      | Some err => log_Error err [] "could not parse fingerprint from matching certificate"
      | None => ret tt
      end ;;
      let certURL := certURL fingerprint in
      let payload := payloadFor matches certURL in
      errs <- slack_Send webhookURL "" payload ;;
      for_range errs (fun err =>
        log_Error err [("fingerprint", fingerprint)] "error sending webhook")
  end.

(** Lines 62-126: the loop, over the results of the successive calls of
    [conn.ReadJSON], each a decoded message and an error.  When the
    results known are used up the process is waiting for the next one. *)
Fixpoint loop (feed : list (JSON * option error)) : Prog Outcome :=
  match feed with
  | [] => ret Blocked
  | (msg, err) :: rest =>
      match err with
      | Some err => log_Fatal (Some err) "error decoding JSON"
      | None => iteration msg ;; loop rest
      end
  end.

End Pipeline.

(** The surroundings of a run: the environment variables, the regexp
    compiler, the websocket dialer, the results of the reads on the
    connection, and the webhook client. *)
Record World : Type := {
  Getenv : string -> string;
  Compile : string -> Regexp * option error;
  Dial : string -> option error;
  feed : list (JSON * option error);
  Send : nat -> list error
}.

(** Lines 36-127.  The deferred [conn.Close()] of line 58 never runs: the
    loop has no exit, and [log.Fatal] leaves through [os.Exit]. *)
Definition main (w : World) : Prog Outcome :=
  let webhookURL := Getenv w "SLACK_WEBHOOK_URL" in
  if (webhookURL =? "")%string then log_Fatal None "SLACK_WEBHOOK_URL must be set" else
  let domainPattern := Getenv w "DOMAIN_PATTERN" in
  if (domainPattern =? "")%string then log_Fatal None "DOMAIN_PATTERN must be set" else
  let (domainRegex, err) := Compile w domainPattern in
  match err with
  | Some err => log_Fatal (Some err) "invalid DOMAIN_PATTERN"
  | None =>
      match Dial w certStreamURL with
      | Some err => log_Fatal (Some err) "could not connect to certstream"
      | None =>
          log_Info [("domainPattern", source domainRegex)] "watching for certificates" ;;
          loop (Send w) webhookURL domainRegex (feed w)
      end
  end.

(** A run from the start of the process. *)
Definition start : Proc := {| trace := []; posts := 0 |}.

Definition run {A : Type} (c : Prog A) : A * list Effect :=
  let (a, p) := c start in (a, trace p).

(** The effects of a program started after [k] posts, and its posts. *)
Definition effects {A : Type} (c : Prog A) (k : nat) : list Effect :=
  trace (snd (c {| trace := []; posts := k |})).

Definition is_Post (e : Effect) : bool :=
  match e with Post _ _ _ => true | Log _ => false end.

Definition notifications (es : list Effect) : list Effect := filter is_Post es.

(** ** Vocabulary of the statements *)

(** The three fields [main] reads from a message. *)
Definition message_type (msg : JSON) : string * option error :=
  jsonq.String msg ["message_type"].

Definition all_domains (msg : JSON) : list string * option error :=
  jsonq.ArrayOfStrings msg ["data"; "leaf_cert"; "all_domains"].

Definition fingerprint (msg : JSON) : string * option error :=
  jsonq.String msg ["data"; "leaf_cert"; "fingerprint"].

Definition certificate_update (msg : JSON) : Prop :=
  fst (message_type msg) = "certificate_update".

(** A domain as it appears in a notification, and the domains of a list
    that the pattern matches. *)
Definition decorate (domain : string) : string := ("`" ++ domain ++ "`")%string.

Definition matched (re : Regexp) (domains : list string) : list string :=
  filter (MatchString re) domains.

(** The entry that stands for [n] domains that did not match. *)
Definition others (n : nat) : string := (Sprintf_d (Z.of_nat n) ++ " others")%string.

(** The three log entries of the loop body. *)
Definition domains_entry (err : error) : Effect :=
  Log {| level := ErrorLevel; cause := Some err; fields := [];
         message := "couldn't get domains" |}.

Definition fingerprint_entry (err : error) : Effect :=
  Log {| level := ErrorLevel; cause := Some err; fields := [];
         message := "could not parse fingerprint from matching certificate" |}.

Definition delivery_entry (fp : string) (err : error) : Effect :=
  Log {| level := ErrorLevel; cause := Some err; fields := [("fingerprint", fp)];
         message := "error sending webhook" |}.

(** The text of a notification with the series [s] and the lookup URL [url]. *)
Definition notification_text (s url : string) : string :=
  ("Found matching certificate for " ++ s ++ ": " ++ url)%string.

(** A certificate_update message with the given domains and fingerprint. *)
Definition update (domains : list string) (fp : string) : JSON :=
  JObject [("message_type", JString "certificate_update");
           ("data", JObject
              [("leaf_cert", JObject
                  [("all_domains", JArray (map JString domains));
                   ("fingerprint", JString fp)])])].

(** The same message without a fingerprint. *)
Definition update_without_fingerprint (domains : list string) : JSON :=
  JObject [("message_type", JString "certificate_update");
           ("data", JObject
              [("leaf_cert", JObject [("all_domains", JArray (map JString domains))])])].

(** A heartbeat of the feed, and a certificate_update without its data. *)
Definition heartbeat : JSON :=
  JObject [("message_type", JString "heartbeat"); ("timestamp", JNumber (QArith_base.Qmake 1 1))].

Definition update_without_domains : JSON :=
  JObject [("message_type", JString "certificate_update")].

(** A webhook client that always succeeds, and one that always fails. *)
Definition delivered : nat -> list error := fun _ => [].

Definition refused : nat -> list error := fun _ => [External "503 Service Unavailable"].

(** The example of the spec: three domains, two of which hold the literal
    pattern [heptio]. *)
Definition example_update : JSON :=
  update ["a.heptio.com"; "b.other.com"; "c.heptio.com"] "AA:BB:CC".

Definition heptio : Regexp := literal "heptio".

(** A certificate for a domain and for a longer domain that starts with it. *)
Definition prefix_update : JSON := update ["heptio.com"; "heptio.com.au"] "AA:BB".

(** The series read as the matched domains put in increasing order and
    then wrapped in backticks, with the entry for the other domains. *)
Definition ascending_domains (re : Regexp) (domains : list string) : list string :=
  map decorate (sort_Strings (matched re domains))
  ++ (if (length (matched re domains) <? length domains)%nat
      then [others (length domains - length (matched re domains))]
      else []).

(** One notification is sent for [msg], and its series is that one. *)
Definition lists_ascending_domains
    (sink : nat -> list error) (hook : string) (re : Regexp) (msg : JSON) (k : nat) : Prop :=
  exists domains,
    all_domains msg = (domains, None) /\
    notifications (effects (iteration sink hook re msg) k)
    = [Post hook ""
         {| Text := notification_text
                      (english.OxfordWordSeries (ascending_domains re domains) "and")
                      (certURL (fst (fingerprint msg))) |}].

(** The four conditions under which the process stops. *)
Definition missing_configuration (w : World) : Prop :=
  Getenv w "SLACK_WEBHOOK_URL" = "" \/ Getenv w "DOMAIN_PATTERN" = "".

Definition invalid_pattern (w : World) : Prop :=
  snd (Compile w (Getenv w "DOMAIN_PATTERN")) <> None.

Definition connection_failure (w : World) : Prop :=
  Dial w certStreamURL <> None.

Definition decode_failure (w : World) : Prop :=
  Exists (fun r : JSON * option error => snd r <> None) (feed w).

(** A read on the connection that returned an error. *)
Definition failedb (r : JSON * option error) : bool :=
  match snd r with Some _ => true | None => false end.

(** The same surroundings with another webhook client. *)
Definition with_Send (w : World) (sink : nat -> list error) : World :=
  {| Getenv := Getenv w; Compile := Compile w; Dial := Dial w; feed := feed w;
     Send := sink |}.

Definition is_Fatal (e : Effect) : Prop :=
  exists entry, e = Log entry /\ level entry = FatalLevel.

(** Surroundings in which the process starts and reads the given feed. *)
Definition watching (feed : list (JSON * option error)) (sink : nat -> list error) : World :=
  {| Getenv := fun name =>
       if (name =? "SLACK_WEBHOOK_URL")%string then "https://hooks.slack.com/services/T/B/X"
       else if (name =? "DOMAIN_PATTERN")%string then "heptio" else "";
     Compile := fun pattern => (literal pattern, None);
     Dial := fun _ => None;
     feed := feed;
     Send := sink |}.

(** ** The earlier [main] *)

(** The second Go source of the repository is an earlier [main]: the same
    start-up and the same loop, with a body that reports every domain of a
    matching certificate, in the order of the certificate. *)
Module Earlier.

Section Pipeline.

Variable sink : nat -> list error.
Variable webhookURL : string.
Variable domainRegex : Regexp.

(** Lines 81-84: [match = match || domainRegex.MatchString(domain)]. *)
Definition anyMatch (domains : list string) : bool :=
  fold_left (fun found domain => found || MatchString domainRegex domain) domains false.

(** Lines 96-99: every domain wrapped in backticks. *)
Definition format (domains : list string) : list string :=
  fold_left
    (fun formattedDomains domain => formattedDomains ++ ["`" ++ domain ++ "`"]%string)
    domains [].

(** Lines 102-108. *)
Definition payloadFor (formattedDomains : list string) (fingerprint : string) : Payload :=
  {| Text := ("Found matching certificate for " ++ Join formattedDomains ","
              ++ ": https://crt.sh/?q=" ++ Replace fingerprint ":" "")%string |}.

(** Lines 66-111: the body of the loop. *)
Definition iteration (msg : JSON) : Prog unit :=
  let jq := msg in
  let (t, _) := jsonq.String jq ["message_type"] in
  if negb (t =? "certificate_update")%string then ret tt else
  let (domains, err) := jsonq.ArrayOfStrings jq ["data"; "leaf_cert"; "all_domains"] in
  match err with
  | Some err => log_Error err [] "couldn't get domains"
  | None =>
      if negb (anyMatch domains) then ret tt else
      let (fingerprint, err) := jsonq.String jq ["data"; "leaf_cert"; "fingerprint"] in
      match err with
      | Some err => log_Error err [] "could not parse fingerprint from matching certificate"
      | None => ret tt
      end ;;
      let formattedDomains := format domains in
      let payload := payloadFor formattedDomains fingerprint in
      errs <- slack_Send sink webhookURL "" payload ;;
      for_range errs (fun err =>
        log_Error err [("fingerprint", fingerprint)] "error sending webhook")
  end.

(** Lines 59-112. *)
Fixpoint loop (feed : list (JSON * option error)) : Prog Outcome :=
  match feed with
  | [] => ret Blocked
  | (msg, err) :: rest =>
      match err with
      | Some err => log_Fatal (Some err) "error decoding JSON"
      | None => iteration msg ;; loop rest
      end
  end.

End Pipeline.

(** Lines 33-113. *)
Definition main (w : World) : Prog Outcome :=
  let webhookURL := Getenv w "SLACK_WEBHOOK_URL" in
  if (webhookURL =? "")%string then log_Fatal None "SLACK_WEBHOOK_URL must be set" else
  let domainPattern := Getenv w "DOMAIN_PATTERN" in
  if (domainPattern =? "")%string then log_Fatal None "DOMAIN_PATTERN must be set" else
  let (domainRegex, err) := Compile w domainPattern in
  match err with
  | Some err => log_Fatal (Some err) "invalid DOMAIN_PATTERN"
  | None =>
      match Dial w certStreamURL with
      | Some err => log_Fatal (Some err) "could not connect to certstream"
      | None =>
          log_Info [("domainPattern", source domainRegex)] "watching for certificates" ;;
          loop (Send w) webhookURL domainRegex (feed w)
      end
  end.

End Earlier.

(** ** Vocabulary of the further properties *)

(** The same surroundings with another feed. *)
Definition with_feed (w : World) (f : list (JSON * option error)) : World :=
  {| Getenv := Getenv w; Compile := Compile w; Dial := Dial w; feed := f;
     Send := Send w |}.

(** The messages read before the first read that fails. *)
Fixpoint readable (feed : list (JSON * option error)) : list JSON :=
  match feed with
  | (msg, None) :: rest => msg :: readable rest
  | _ => []
  end.

(** A certificate_update whose domains can be read and one of which the
    pattern matches. *)
Definition matching (re : Regexp) (msg : JSON) : bool :=
  (fst (message_type msg) =? "certificate_update")%string &&
  match snd (all_domains msg) with
  | Some _ => false
  | None => existsb (MatchString re) (fst (all_domains msg))
  end.

(** An effect other than a fatal log entry. *)
Definition nonfatal (e : Effect) : Prop :=
  match e with
  | Log entry => level entry <> FatalLevel
  | Post _ _ _ => True
  end.


(** The startup of [w] succeeds with the compiled pattern [re]. *)
Definition started (w : World) (re : Regexp) : Prop :=
  Getenv w "SLACK_WEBHOOK_URL" <> "" /\
  Getenv w "DOMAIN_PATTERN" <> "" /\
  Compile w (Getenv w "DOMAIN_PATTERN") = (re, None) /\
  Dial w certStreamURL = None.

(** The first log entry of a process that started. *)
Definition watching_entry (re : Regexp) : Effect :=
  Log {| level := InfoLevel; cause := None;
         fields := [("domainPattern", source re)];
         message := "watching for certificates" |}.

(** Surroundings in which the feed cannot be reached. *)
Definition offline (feed : list (JSON * option error)) : World :=
  {| Getenv := Getenv (watching [] refused);
     Compile := Compile (watching [] refused);
     Dial := fun _ => Some (External "dial tcp: no such host");
     feed := feed;
     Send := delivered |}.

(** The series as the amended claim words it: one word alone; two words
    joined by [ and ]; three words and more separated by commas, the last
    one after [, and ]. *)
Fixpoint enumerate (words : list string) : string :=
  match words with
  | [] => ""
  | [w] => ("and " ++ w)%string
  | w :: rest => (w ++ ", " ++ enumerate rest)%string
  end.

Definition written_series (words : list string) : string :=
  match words with
  | [] => ""
  | [w] => w
  | [w1; w2] => (w1 ++ " and " ++ w2)%string
  | _ => enumerate words
  end.

(** The entries of the series of a certificate with the given domains:
    the matched domains wrapped in backticks, in increasing byte-wise
    order of the wrapped strings, then the entry for the other domains
    when there are any. *)
Definition sorted_entries (re : Regexp) (domains : list string) : list string :=
  sort_Strings (map decorate (matched re domains))
  ++ (if (length (matched re domains) <? length domains)%nat
      then [others (length domains - length (matched re domains))]
      else []).

(** * Properties *)

(** ** Byte strings *)

Lemma append_assoc (a b c : string) : ((a ++ b) ++ c = a ++ (b ++ c))%string.
Proof. induction a as [|x a IH]; simpl; [reflexivity | now rewrite IH]. Qed.

Lemma append_empty_r (a : string) : (a ++ "" = a)%string.
Proof. induction a as [|x a IH]; simpl; [reflexivity | now rewrite IH]. Qed.

Lemma Count_append (a b : string) (c : ascii) :
  Count (a ++ b) c = Count a c + Count b c.
Proof.
  induction a as [|x a IH]; simpl; [reflexivity|].
  rewrite IH. lia.
Qed.

Lemma Count_without (c : ascii) (s : string) : Count (without c s) c = 0.
Proof.
  induction s as [|x s IH]; simpl; [reflexivity|].
  destruct (Ascii.eqb x c) eqn:E; simpl; [exact IH|].
  rewrite E. exact IH.
Qed.

(** Replacing a single byte by nothing removes the byte. *)
Lemma Replace_byte_empty (c : ascii) (s : string) :
  Replace s (String c "") "" = without c s.
Proof.
  unfold Replace.
  induction s as [|x s IH]; [reflexivity|].
  cbn [replaceFrom without String.prefix String.length Nat.sub append].
  rewrite Ascii.eqb_sym.
  destruct (ascii_dec c x) as [->|Hne].
  - rewrite Ascii.eqb_refl.
    destruct s; exact IH.
  - apply Ascii.eqb_neq in Hne. rewrite Hne.
    f_equal. exact IH.
Qed.

Example Join_three : Join ["a"; "b"; "c"] ", " = "a, b, c".
Proof. reflexivity. Qed.

Example Replace_word : Replace "abcabcab" "bc" "-" = "a-a-ab".
Proof. reflexivity. Qed.

Example Sprintf_d_12 : Sprintf_d 12 = "12" /\ Sprintf_d 0 = "0".
Proof. split; reflexivity. Qed.

Example HasSuffix_ex : HasSuffix "hello" "llo" = true /\ HasSuffix "hello" "hel" = false.
Proof. split; reflexivity. Qed.

(** ** The byte-wise order and [sort.Strings] *)

Lemma ascii_compare_lt_trans (a b c : ascii) :
  Ascii.compare a b = Lt -> Ascii.compare b c = Lt -> Ascii.compare a c = Lt.
Proof.
  unfold Ascii.compare. rewrite !N.compare_lt_iff. lia.
Qed.

Lemma compare_lt_trans (a : string) :
  forall b c, String.compare a b = Lt -> String.compare b c = Lt -> String.compare a c = Lt.
Proof.
  induction a as [|x a IH]; intros [|y b] [|z c]; simpl; try discriminate; auto.
  destruct (Ascii.compare x y) eqn:Exy; try discriminate;
    destruct (Ascii.compare y z) eqn:Eyz; try discriminate; intros Hab Hbc.
  - apply Ascii.compare_eq_iff in Exy, Eyz. subst.
    replace (Ascii.compare z z) with Eq
      by (unfold Ascii.compare; now rewrite N.compare_refl).
    eauto.
  - apply Ascii.compare_eq_iff in Exy. subst. now rewrite Eyz.
  - apply Ascii.compare_eq_iff in Eyz. subst. now rewrite Exy.
  - now rewrite (ascii_compare_lt_trans _ _ _ Exy Eyz).
Qed.

Lemma le_refl (a : string) : le a a.
Proof.
  unfold le. destruct (String.leb_total a a); assumption.
Qed.

Lemma le_trans (a b c : string) : le a b -> le b c -> le a c.
Proof.
  unfold le, String.leb.
  destruct (String.compare a b) eqn:Eab; try discriminate;
    destruct (String.compare b c) eqn:Ebc; try discriminate; intros _ _.
  - apply String.compare_eq_iff in Eab. subst. now rewrite Ebc.
  - apply String.compare_eq_iff in Eab. subst. now rewrite Ebc.
  - apply String.compare_eq_iff in Ebc. subst. now rewrite Eab.
  - now rewrite (compare_lt_trans _ _ _ Eab Ebc).
Qed.

Lemma ltb_le (a b : string) : String.ltb a b = true -> le a b.
Proof.
  unfold le, String.ltb, String.leb. destruct (String.compare a b); congruence.
Qed.

Lemma not_ltb_le (a b : string) : String.ltb a b = false -> le b a.
Proof.
  unfold le, String.ltb, String.leb. rewrite (String.compare_antisym b a).
  destruct (String.compare a b); simpl; congruence.
Qed.

Lemma insert_perm (x : string) (l : list string) : Permutation (insert x l) (x :: l).
Proof.
  induction l as [|y l IH]; simpl; [reflexivity|].
  destruct (String.ltb y x); [|reflexivity].
  rewrite IH. apply perm_swap.
Qed.

Lemma sort_Strings_perm (l : list string) : Permutation (sort_Strings l) l.
Proof.
  induction l as [|x l IH]; simpl; [reflexivity|].
  rewrite insert_perm. now constructor.
Qed.

Lemma insert_sorted (x : string) (l : list string) :
  StronglySorted le l -> StronglySorted le (insert x l).
Proof.
  induction 1 as [|y l Hs IH Hy]; simpl.
  - repeat constructor.
  - destruct (String.ltb y x) eqn:E.
    + constructor; [exact IH|].
      apply (Permutation_Forall (Permutation_sym (insert_perm x l))).
      constructor; [now apply ltb_le | exact Hy].
    + apply not_ltb_le in E.
      constructor; [now constructor|].
      constructor; [exact E|].
      eapply Forall_impl; [|exact Hy].
      intros z Hz. now apply (le_trans _ y).
Qed.

Lemma sort_Strings_sorted (l : list string) : StronglySorted le (sort_Strings l).
Proof.
  induction l as [|x l IH]; simpl; [constructor | now apply insert_sorted].
Qed.

(** A list has one arrangement in increasing order: [sort_Strings] returns
    what any sorting algorithm returns. *)
Lemma sorted_unique (l1 : list string) :
  forall l2, StronglySorted le l1 -> StronglySorted le l2 -> Permutation l1 l2 -> l1 = l2.
Proof.
  induction l1 as [|x l1 IH]; intros l2 H1 H2 HP.
  - now apply Permutation_nil in HP.
  - destruct l2 as [|y l2]; [now apply Permutation_sym, Permutation_nil in HP|].
    apply StronglySorted_inv in H1 as [H1 Hx].
    apply StronglySorted_inv in H2 as [H2 Hy].
    assert (x = y) as ->.
    { apply String.leb_antisym.
      - assert (In y (x :: l1)) as [->|Hin]
            by (apply (Permutation_in _ (Permutation_sym HP)); now left).
        + apply le_refl.
        + now apply (proj1 (Forall_forall _ _) Hx).
      - assert (In x (y :: l2)) as [->|Hin]
            by (apply (Permutation_in _ HP); now left).
        + apply le_refl.
        + now apply (proj1 (Forall_forall _ _) Hy). }
    f_equal. apply IH; auto.
    now apply Permutation_cons_inv in HP.
Qed.

Lemma sort_Strings_length (l : list string) : length (sort_Strings l) = length l.
Proof. apply Permutation_length, sort_Strings_perm. Qed.

Example sort_Strings_ex : sort_Strings ["b"; "a"; "ab"; "B"] = ["B"; "a"; "ab"; "b"].
Proof. reflexivity. Qed.

(** ** The loop body, case by case *)

Lemma Proc_eta (p : Proc) (es : list Effect) :
  es = [] -> {| trace := trace p ++ es; posts := posts p |} = p.
Proof. intros ->. destruct p; simpl. now rewrite app_nil_r. Qed.

Lemma for_range_emits {A : Type} (body : A -> Prog unit) (f : A -> Effect) :
  (forall x p, body x p = (tt, {| trace := trace p ++ [f x]; posts := posts p |})) ->
  forall xs p,
    for_range xs body p = (tt, {| trace := trace p ++ map f xs; posts := posts p |}).
Proof.
  intros Hbody xs. induction xs as [|x xs IH]; intros p; simpl.
  - unfold ret. now rewrite Proc_eta.
  - unfold bind. rewrite Hbody, IH. simpl.
    now rewrite <- app_assoc.
Qed.

(** The matches collected by the loop of lines 85-91. *)
Lemma collect_matched (re : Regexp) (domains : list string) :
  collect re domains = map decorate (matched re domains).
Proof.
  unfold collect, matched.
  enough (forall acc,
    fold_left (fun matches domain =>
                 if negb (MatchString re domain) then matches
                 else matches ++ [("`" ++ domain ++ "`")%string]) domains acc
    = acc ++ map decorate (filter (MatchString re) domains)) as H by apply (H []).
  induction domains as [|d ds IH]; intros acc; simpl.
  - now rewrite app_nil_r.
  - rewrite IH. destruct (MatchString re d); simpl; [|reflexivity].
    now rewrite <- app_assoc.
Qed.

Lemma jsonq_String_failed (msg : JSON) (path : list string) :
  snd (jsonq.String msg path) <> None -> fst (jsonq.String msg path) = "".
Proof.
  unfold jsonq.String.
  destruct (jsonq.rquery msg path) as [v [e|]]; [reflexivity|].
  destruct v; simpl; congruence.
Qed.

Section Body.

Variable sink : nat -> list error.
Variable hook : string.
Variable re : Regexp.

(** Line 72: anything but a certificate_update is passed over. *)
Lemma iteration_skipped (msg : JSON) (p : Proc) :
  fst (message_type msg) <> "certificate_update" ->
  iteration sink hook re msg p = (tt, p).
Proof.
  unfold message_type, iteration. intros H.
  destruct (jsonq.String msg ["message_type"]) as [t e]; simpl in H.
  apply String.eqb_neq in H. now rewrite H.
Qed.

(** Lines 77-81: the domains cannot be read. *)
Lemma iteration_no_domains (msg : JSON) (e : error) (p : Proc) :
  certificate_update msg ->
  snd (all_domains msg) = Some e ->
  iteration sink hook re msg p
  = (tt, {| trace := trace p ++ [domains_entry e]; posts := posts p |}).
Proof.
  unfold certificate_update, message_type, all_domains, iteration. intros Ht Hd.
  destruct (jsonq.String msg ["message_type"]) as [t e0]; simpl in Ht. subst t.
  destruct (jsonq.ArrayOfStrings msg _) as [ds err]; simpl in Hd. subst err.
  reflexivity.
Qed.

(** Lines 94-96: no domain matches. *)
Lemma iteration_no_match (msg : JSON) (domains : list string) (p : Proc) :
  certificate_update msg ->
  all_domains msg = (domains, None) ->
  matched re domains = [] ->
  iteration sink hook re msg p = (tt, p).
Proof.
  unfold certificate_update, message_type, all_domains, iteration. intros Ht Hd Hm.
  destruct (jsonq.String msg ["message_type"]) as [t e0]; simpl in Ht. subst t.
  rewrite Hd. simpl. rewrite collect_matched, Hm. reflexivity.
Qed.

(** Lines 98-125: some domain matches. *)
Lemma iteration_match (msg : JSON) (domains : list string) (p : Proc) :
  certificate_update msg ->
  all_domains msg = (domains, None) ->
  matched re domains <> [] ->
  iteration sink hook re msg p
  = (tt, {| trace :=
              trace p
              ++ match snd (fingerprint msg) with
                 | Some e => [fingerprint_entry e]
                 | None => []
                 end
              ++ Post hook ""
                   (payloadFor (series domains (map decorate (matched re domains)))
                               (certURL (fst (fingerprint msg))))
              :: map (delivery_entry (fst (fingerprint msg))) (sink (posts p));
            posts := S (posts p) |}).
Proof.
  unfold certificate_update, message_type, all_domains, fingerprint, iteration.
  intros Ht Hd Hm.
  destruct (jsonq.String msg ["message_type"]) as [t e0]; simpl in Ht. subst t.
  rewrite Hd. simpl. rewrite collect_matched.
  destruct (matched re domains) as [|d ds] eqn:E; [congruence|].
  replace (len (map decorate (d :: ds)) =? 0)%Z with false
    by (symmetry; apply Z.eqb_neq; unfold len; simpl; lia).
  destruct (jsonq.String msg ["data"; "leaf_cert"; "fingerprint"]) as [fp [e|]];
    unfold bind, log_Error, emit, ret, slack_Send; simpl;
    rewrite (for_range_emits _ (delivery_entry fp)) by reflexivity; simpl;
    repeat rewrite <- app_assoc; reflexivity.
Qed.

End Body.

(** ** What a run of the loop body emits *)

Lemma notifications_app (a b : list Effect) :
  notifications (a ++ b) = notifications a ++ notifications b.
Proof. apply filter_app. Qed.

Lemma notifications_delivery (fp : string) (errs : list error) :
  notifications (map (delivery_entry fp) errs) = [].
Proof. induction errs as [|e errs IH]; simpl; auto. Qed.

Lemma matched_nonempty (re : Regexp) (domains : list string) :
  (exists d, In d domains /\ MatchString re d = true) <-> matched re domains <> [].
Proof.
  unfold matched. split.
  - intros [d Hd] E. apply filter_In in Hd. rewrite E in Hd. contradiction.
  - destruct (filter (MatchString re) domains) as [|d ds] eqn:E; [congruence|].
    intros _. exists d. apply filter_In. rewrite E. now left.
Qed.

Lemma matched_empty (re : Regexp) (domains : list string) :
  (forall d, In d domains -> MatchString re d = false) -> matched re domains = [].
Proof.
  intros H. destruct (matched re domains) as [|d ds] eqn:E; [reflexivity|].
  assert (In d (matched re domains)) as Hd by (rewrite E; now left).
  apply filter_In in Hd as [Hin Hm]. rewrite (H d Hin) in Hm. discriminate.
Qed.

Lemma matched_length (re : Regexp) (domains : list string) :
  length (matched re domains) <= length domains.
Proof. apply filter_length_le. Qed.

(** The list joined into the series: the decorated matches in increasing
    order, then the entry for the other domains when there are any. *)
Lemma series_matched (re : Regexp) (domains : list string) :
  series domains (map decorate (matched re domains))
  = sort_Strings (map decorate (matched re domains))
    ++ (if (length (matched re domains) <? length domains)%nat
        then [others (length domains - length (matched re domains))]
        else []).
Proof.
  unfold series, len, others.
  rewrite sort_Strings_length, length_map.
  pose proof (matched_length re domains) as Hle.
  destruct (length (matched re domains) <? length domains)%nat eqn:E.
  - apply Nat.ltb_lt in E.
    replace (Z.of_nat (length domains) - Z.of_nat (length (matched re domains)) >? 0)%Z
      with true by (symmetry; apply Z.gtb_lt; lia).
    now rewrite Nat2Z.inj_sub by lia.
  - apply Nat.ltb_ge in E.
    replace (Z.of_nat (length domains) - Z.of_nat (length (matched re domains)) >? 0)%Z
      with false by (symmetry; rewrite Z.gtb_ltb; apply Z.ltb_ge; lia).
    now rewrite app_nil_r.
Qed.

Section Emitted.

Variable sink : nat -> list error.
Variable hook : string.
Variable re : Regexp.

Lemma effects_match (msg : JSON) (domains : list string) (k : nat) :
  certificate_update msg ->
  all_domains msg = (domains, None) ->
  matched re domains <> [] ->
  effects (iteration sink hook re msg) k
  = match snd (fingerprint msg) with
    | Some e => [fingerprint_entry e]
    | None => []
    end
    ++ Post hook ""
         (payloadFor (series domains (map decorate (matched re domains)))
                     (certURL (fst (fingerprint msg))))
    :: map (delivery_entry (fst (fingerprint msg))) (sink k).
Proof.
  intros Ht Hd Hm. unfold effects.
  now rewrite (iteration_match sink hook re msg domains _ Ht Hd Hm).
Qed.

Lemma notifications_match (msg : JSON) (domains : list string) (k : nat) :
  certificate_update msg ->
  all_domains msg = (domains, None) ->
  matched re domains <> [] ->
  notifications (effects (iteration sink hook re msg) k)
  = [Post hook ""
       (payloadFor (series domains (map decorate (matched re domains)))
                   (certURL (fst (fingerprint msg))))].
Proof.
  intros Ht Hd Hm. rewrite (effects_match msg domains k Ht Hd Hm).
  rewrite notifications_app. simpl. rewrite notifications_delivery.
  destruct (snd (fingerprint msg)); reflexivity.
Qed.

(** A post comes from a certificate_update whose domains were read and
    matched: the only [slack.Send] of the body is on line 123. *)
Lemma post_inversion (msg : JSON) (k : nat) (url proxy : string) (payload : Payload) :
  In (Post url proxy payload) (effects (iteration sink hook re msg) k) ->
  exists domains,
    certificate_update msg /\
    all_domains msg = (domains, None) /\
    matched re domains <> [] /\
    url = hook /\ proxy = "" /\
    payload = payloadFor (series domains (map decorate (matched re domains)))
                         (certURL (fst (fingerprint msg))).
Proof.
  intros Hin.
  destruct (string_dec (fst (message_type msg)) "certificate_update") as [Ht|Ht].
  2:{ unfold effects in Hin. rewrite iteration_skipped in Hin by exact Ht.
      contradiction. }
  destruct (all_domains msg) as [domains [e|]] eqn:Hd.
  { unfold effects in Hin.
    rewrite (iteration_no_domains sink hook re msg e) in Hin
      by (assumption || now rewrite Hd).
    simpl in Hin. destruct Hin as [Hin|[]]. discriminate. }
  destruct (matched re domains) as [|d ds] eqn:Hm.
  { unfold effects in Hin.
    rewrite (iteration_no_match sink hook re msg domains) in Hin by assumption.
    contradiction. }
  assert (matched re domains <> []) as Hne by (rewrite Hm; discriminate).
  exists domains.
  rewrite (effects_match msg domains k Ht Hd Hne) in Hin.
  apply in_app_or in Hin as [Hin|[Hin|Hin]].
  - destruct (snd (fingerprint msg)); simpl in Hin; [|contradiction].
    destruct Hin as [Hin|[]]. discriminate.
  - injection Hin as <- <- <-. auto 6.
  - apply in_map_iff in Hin as [e [He _]]. discriminate.
Qed.

End Emitted.

(** * The claims *)

(** C3. A certificate_update none of whose domains matches the pattern,
    an empty list of domains included, sends no notification: the loop
    body emits nothing at all and leaves the state of the run as it was. *)
Theorem no_match_no_notification
    (sink : nat -> list error) (hook : string) (re : Regexp)
    (msg : JSON) (domains : list string) :
  certificate_update msg ->
  all_domains msg = (domains, None) ->
  (forall d, In d domains -> MatchString re d = false) ->
  forall p : Proc,
    iteration sink hook re msg p = (tt, p) /\
    notifications (effects (iteration sink hook re msg) (posts p)) = [].
Proof.
  intros Ht Hd Hnone p.
  pose proof (matched_empty re domains Hnone) as Hm.
  split.
  - now apply (iteration_no_match sink hook re msg domains).
  - unfold effects.
    now rewrite (iteration_no_match sink hook re msg domains _ Ht Hd Hm).
Qed.

Lemma no_match_no_notification_witness :
  (certificate_update (update ["x.com"] "AA:BB") /\
   all_domains (update ["x.com"] "AA:BB") = (["x.com"], None) /\
   forall d, In d ["x.com"] -> MatchString heptio d = false) /\
  (iteration refused "hook" heptio (update ["x.com"] "AA:BB") start = (tt, start) /\
   notifications (effects (iteration refused "hook" heptio (update ["x.com"] "AA:BB")) 0) = []).
Proof.
  assert (forall d, In d ["x.com"] -> MatchString heptio d = false) as H
    by (intros d [<-|[]]; reflexivity).
  split; [split; [reflexivity | split; [reflexivity | exact H]] |].
  exact (no_match_no_notification refused "hook" heptio (update ["x.com"] "AA:BB")
           ["x.com"] eq_refl eq_refl H start).
Defined.

(** C4. A message whose [message_type] is missing, is not a string, or is
    not ["certificate_update"] is passed over in silence: the loop body
    emits no post and no log entry, changes nothing, and the loop goes on
    with the next message. *)
Theorem other_messages_skipped
    (sink : nat -> list error) (hook : string) (re : Regexp) (msg : JSON) :
  snd (message_type msg) <> None \/ fst (message_type msg) <> "certificate_update" ->
  forall p : Proc,
    iteration sink hook re msg p = (tt, p) /\
    effects (iteration sink hook re msg) (posts p) = [] /\
    forall rest, loop sink hook re ((msg, None) :: rest) p = loop sink hook re rest p.
Proof.
  intros H p.
  assert (fst (message_type msg) <> "certificate_update") as Ht.
  { destruct H as [H|H]; [|exact H].
    unfold message_type in *. rewrite (jsonq_String_failed _ _ H). discriminate. }
  repeat split.
  - now apply iteration_skipped.
  - unfold effects. now rewrite iteration_skipped.
  - intros rest. simpl. unfold bind. now rewrite iteration_skipped.
Qed.

Lemma other_messages_skipped_witness :
  (snd (message_type JNull) <> None \/ fst (message_type JNull) <> "certificate_update") /\
  (snd (message_type heartbeat) <> None \/
   fst (message_type heartbeat) <> "certificate_update") /\
  iteration refused "hook" heptio JNull start = (tt, start) /\
  iteration refused "hook" heptio heartbeat start = (tt, start).
Proof.
  assert (snd (message_type JNull) <> None \/
          fst (message_type JNull) <> "certificate_update") as H1
    by (left; discriminate).
  assert (snd (message_type heartbeat) <> None \/
          fst (message_type heartbeat) <> "certificate_update") as H2
    by (right; discriminate).
  split; [exact H1 | split; [exact H2 | split]].
  - exact (proj1 (other_messages_skipped refused "hook" heptio JNull H1 start)).
  - exact (proj1 (other_messages_skipped refused "hook" heptio heartbeat H2 start)).
Defined.

(** C8. When the list of domains of a certificate_update cannot be read
    (the field is missing or is not an array of strings), the loop body
    logs the error and nothing else, no notification is sent, and the loop
    goes on with the next message: the failure does not end the process. *)
Theorem domains_failure_logged_and_skipped
    (sink : nat -> list error) (hook : string) (re : Regexp) (msg : JSON) (e : error) :
  certificate_update msg ->
  snd (all_domains msg) = Some e ->
  forall p : Proc,
    effects (iteration sink hook re msg) (posts p) = [domains_entry e] /\
    (forall rest,
       loop sink hook re ((msg, None) :: rest) p
       = loop sink hook re rest
           {| trace := trace p ++ [domains_entry e]; posts := posts p |}) /\
    fst (loop sink hook re [(msg, None)] p) = Blocked.
Proof.
  intros Ht Hd p. repeat split.
  - unfold effects. now rewrite (iteration_no_domains sink hook re msg e).
  - intros rest. simpl. unfold bind.
    now rewrite (iteration_no_domains sink hook re msg e).
  - simpl. unfold bind.
    now rewrite (iteration_no_domains sink hook re msg e).
Qed.

Lemma domains_failure_logged_and_skipped_witness :
  (certificate_update update_without_domains /\
   snd (all_domains update_without_domains) = Some (MissingField "data")) /\
  effects (iteration refused "hook" heptio update_without_domains) 0
  = [domains_entry (MissingField "data")].
Proof.
  split; [split; reflexivity|].
  exact (proj1 (domains_failure_logged_and_skipped refused "hook" heptio
                  update_without_domains (MissingField "data") eq_refl eq_refl start)).
Defined.

(** C7. When the fingerprint of a matching certificate_update cannot be
    read, the failure is logged as an error and the notification is sent
    all the same, built with the empty fingerprint: its lookup URL is the
    bare template [https://crt.sh/?q=]. *)
Theorem fingerprint_failure_still_notifies
    (sink : nat -> list error) (hook : string) (re : Regexp)
    (msg : JSON) (domains : list string) (e : error) (k : nat) :
  certificate_update msg ->
  all_domains msg = (domains, None) ->
  (exists d, In d domains /\ MatchString re d = true) ->
  snd (fingerprint msg) = Some e ->
  fst (fingerprint msg) = "" /\
  exists words,
    effects (iteration sink hook re msg) k
    = fingerprint_entry e
      :: Post hook ""
           {| Text := notification_text (english.OxfordWordSeries words "and")
                                        "https://crt.sh/?q=" |}
      :: map (delivery_entry "") (sink k).
Proof.
  intros Ht Hd Hm Hf.
  apply matched_nonempty in Hm.
  assert (fst (fingerprint msg) = "") as Hfp
    by (apply jsonq_String_failed; unfold fingerprint in Hf; rewrite Hf; discriminate).
  split; [exact Hfp|].
  exists (series domains (map decorate (matched re domains))).
  rewrite (effects_match sink hook re msg domains k Ht Hd Hm), Hf, Hfp.
  reflexivity.
Qed.

Lemma fingerprint_failure_still_notifies_witness :
  (certificate_update (update_without_fingerprint ["a.heptio.com"]) /\
   all_domains (update_without_fingerprint ["a.heptio.com"]) = (["a.heptio.com"], None) /\
   (exists d, In d ["a.heptio.com"] /\ MatchString heptio d = true) /\
   snd (fingerprint (update_without_fingerprint ["a.heptio.com"]))
   = Some (MissingField "fingerprint")) /\
  fst (fingerprint (update_without_fingerprint ["a.heptio.com"])) = "" /\
  exists words,
    effects (iteration refused "hook" heptio (update_without_fingerprint ["a.heptio.com"])) 0
    = fingerprint_entry (MissingField "fingerprint")
      :: Post "hook" ""
           {| Text := notification_text (english.OxfordWordSeries words "and")
                                        "https://crt.sh/?q=" |}
      :: map (delivery_entry "") (refused 0).
Proof.
  assert (exists d, In d ["a.heptio.com"] /\ MatchString heptio d = true) as Hm
    by (exists "a.heptio.com"; split; [now left | reflexivity]).
  split.
  - split; [reflexivity | split; [reflexivity | split; [exact Hm | reflexivity]]].
  - exact (fingerprint_failure_still_notifies refused "hook" heptio
             (update_without_fingerprint ["a.heptio.com"]) ["a.heptio.com"]
             (MissingField "fingerprint") 0 eq_refl eq_refl Hm eq_refl).
Defined.

(** C5. In every notification that is sent, the lookup URL is the fixed
    template [https://crt.sh/?q=] followed by the fingerprint of the
    message with all its colons removed: the part after the template has
    no colon, and the only colon of the URL is the one of the scheme. *)
Theorem lookup_url_without_colons
    (sink : nat -> list error) (hook : string) (re : Regexp) (msg : JSON) (k : nat)
    (url proxy : string) (payload : Payload) :
  In (Post url proxy payload) (effects (iteration sink hook re msg) k) ->
  exists s q,
    Text payload = notification_text s ("https://crt.sh/?q=" ++ q) /\
    q = Replace (fst (fingerprint msg)) ":" "" /\
    q = without ":"%char (fst (fingerprint msg)) /\
    Count q ":"%char = 0 /\
    Count ("https://crt.sh/?q=" ++ q) ":"%char = 1.
Proof.
  intros Hin.
  apply post_inversion in Hin as (domains & _ & _ & _ & _ & _ & ->).
  exists (english.OxfordWordSeries (series domains (map decorate (matched re domains))) "and").
  exists (Replace (fst (fingerprint msg)) ":" "").
  split; [reflexivity|]. split; [reflexivity|].
  rewrite Replace_byte_empty. split; [reflexivity|].
  rewrite Count_append, Count_without. split; reflexivity.
Qed.

Lemma lookup_url_without_colons_witness :
  In (Post "hook" ""
        {| Text := "Found matching certificate for `a.heptio.com`, `c.heptio.com`, and 1 others: https://crt.sh/?q=AABBCC" |})
     (effects (iteration delivered "hook" heptio example_update) 0) /\
  exists s q,
    "Found matching certificate for `a.heptio.com`, `c.heptio.com`, and 1 others: https://crt.sh/?q=AABBCC"
    = notification_text s ("https://crt.sh/?q=" ++ q) /\
    q = Replace (fst (fingerprint example_update)) ":" "" /\
    q = without ":"%char (fst (fingerprint example_update)) /\
    Count q ":"%char = 0 /\
    Count ("https://crt.sh/?q=" ++ q) ":"%char = 1.
Proof.
  assert (In (Post "hook" ""
        {| Text := "Found matching certificate for `a.heptio.com`, `c.heptio.com`, and 1 others: https://crt.sh/?q=AABBCC" |})
     (effects (iteration delivered "hook" heptio example_update) 0)) as Hin
    by (vm_compute; left; reflexivity).
  split; [exact Hin|].
  exact (lookup_url_without_colons delivered "hook" heptio example_update 0 _ _ _ Hin).
Defined.

(** C2. For a matching certificate_update with [N] domains of which [M]
    match: the list joined into the series starts with [M] entries, each
    a matched domain in backticks; when [M < N] one more entry follows
    them, reading [<N-M> others]; when [M = N] nothing follows them. *)
Theorem others_entry_after_matches
    (sink : nat -> list error) (hook : string) (re : Regexp)
    (msg : JSON) (domains : list string) (k : nat) :
  certificate_update msg ->
  all_domains msg = (domains, None) ->
  (exists d, In d domains /\ MatchString re d = true) ->
  let N := length domains in
  let M := length (matched re domains) in
  exists entries lookup,
    length entries = M /\
    Forall (fun entry => exists d, In d domains /\ MatchString re d = true /\
                                   entry = decorate d) entries /\
    (M < N ->
     notifications (effects (iteration sink hook re msg) k)
     = [Post hook ""
          {| Text := notification_text
                       (english.OxfordWordSeries (entries ++ [others (N - M)]) "and")
                       lookup |}]) /\
    (M = N ->
     notifications (effects (iteration sink hook re msg) k)
     = [Post hook ""
          {| Text := notification_text (english.OxfordWordSeries entries "and") lookup |}]).
Proof.
  intros Ht Hd Hm N M.
  apply matched_nonempty in Hm.
  exists (sort_Strings (map decorate (matched re domains))).
  exists (certURL (fst (fingerprint msg))).
  rewrite (notifications_match sink hook re msg domains k Ht Hd Hm), series_matched.
  fold N M.
  split; [|split; [|split]].
  - now rewrite sort_Strings_length, length_map.
  - apply (Permutation_Forall (Permutation_sym (sort_Strings_perm _))).
    apply Forall_forall. intros entry Hin.
    apply in_map_iff in Hin as (d & <- & Hin).
    apply filter_In in Hin as [Hin Hmatch]. now exists d.
  - intros Hlt. apply Nat.ltb_lt in Hlt. now rewrite Hlt.
  - intros Heq. rewrite Heq, Nat.ltb_irrefl, app_nil_r. reflexivity.
Qed.

Lemma others_entry_after_matches_witness :
  (certificate_update example_update /\
   all_domains example_update = (["a.heptio.com"; "b.other.com"; "c.heptio.com"], None) /\
   exists d, In d ["a.heptio.com"; "b.other.com"; "c.heptio.com"] /\
             MatchString heptio d = true) /\
  exists entries lookup,
    length entries = 2 /\
    Forall (fun entry => exists d, In d ["a.heptio.com"; "b.other.com"; "c.heptio.com"] /\
                                   MatchString heptio d = true /\
                                   entry = decorate d) entries /\
    (2 < 3 ->
     notifications (effects (iteration delivered "hook" heptio example_update) 0)
     = [Post "hook" ""
          {| Text := notification_text
                       (english.OxfordWordSeries (entries ++ [others (3 - 2)]) "and")
                       lookup |}]) /\
    (2 = 3 ->
     notifications (effects (iteration delivered "hook" heptio example_update) 0)
     = [Post "hook" ""
          {| Text := notification_text (english.OxfordWordSeries entries "and") lookup |}]).
Proof.
  assert (exists d, In d ["a.heptio.com"; "b.other.com"; "c.heptio.com"] /\
                    MatchString heptio d = true) as Hm
    by (exists "a.heptio.com"; split; [now left | reflexivity]).
  split.
  - split; [reflexivity | split; [reflexivity | exact Hm]].
  - exact (others_entry_after_matches delivered "hook" heptio example_update
             ["a.heptio.com"; "b.other.com"; "c.heptio.com"] 0 eq_refl eq_refl Hm).
Defined.

(** C1 (as amended). A certificate_update with at least one matching
    domain sends exactly one notification; the series of its text joins
    the matched domains, each wrapped in backticks, in increasing byte-wise
    order of the wrapped strings, followed by the entry [<N-M> others]
    exactly when some of the [N] domains are not among the [M] matched
    ones, and the text ends with the lookup URL of the fingerprint. *)
Theorem one_notification_sorted_entries
    (sink : nat -> list error) (hook : string) (re : Regexp)
    (msg : JSON) (domains : list string) (k : nat) :
  certificate_update msg ->
  all_domains msg = (domains, None) ->
  (exists d, In d domains /\ MatchString re d = true) ->
  let N := length domains in
  let M := length (matched re domains) in
  exists entries,
    notifications (effects (iteration sink hook re msg) k)
    = [Post hook ""
         {| Text := notification_text
                      (english.OxfordWordSeries
                         (entries ++ (if (M <? N)%nat then [others (N - M)] else []))
                         "and")
                      (certURL (fst (fingerprint msg))) |}] /\
    Permutation entries (map decorate (matched re domains)) /\
    StronglySorted le entries /\
    length entries = M.
Proof.
  intros Ht Hd Hm N M.
  apply matched_nonempty in Hm.
  exists (sort_Strings (map decorate (matched re domains))).
  rewrite (notifications_match sink hook re msg domains k Ht Hd Hm), series_matched.
  split; [reflexivity|].
  split; [apply sort_Strings_perm|].
  split; [apply sort_Strings_sorted|].
  now rewrite sort_Strings_length, length_map.
Qed.

Lemma one_notification_sorted_entries_witness :
  (certificate_update prefix_update /\
   all_domains prefix_update = (["heptio.com"; "heptio.com.au"], None) /\
   exists d, In d ["heptio.com"; "heptio.com.au"] /\ MatchString heptio d = true) /\
  exists entries,
    notifications (effects (iteration delivered "hook" heptio prefix_update) 0)
    = [Post "hook" ""
         {| Text := notification_text
                      (english.OxfordWordSeries (entries ++ []) "and")
                      (certURL (fst (fingerprint prefix_update))) |}] /\
    Permutation entries (map decorate (matched heptio ["heptio.com"; "heptio.com.au"])) /\
    StronglySorted le entries /\
    length entries = 2.
Proof.
  assert (exists d, In d ["heptio.com"; "heptio.com.au"] /\ MatchString heptio d = true)
    as Hm by (exists "heptio.com"; split; [now left | reflexivity]).
  split.
  - split; [reflexivity | split; [reflexivity | exact Hm]].
  - exact (one_notification_sorted_entries delivered "hook" heptio prefix_update
             ["heptio.com"; "heptio.com.au"] 0 eq_refl eq_refl Hm).
Defined.

(** C1 (as stated) fails on a certificate for [heptio.com] and
    [heptio.com.au]: both match, their increasing order is [heptio.com]
    then [heptio.com.au], and the one notification sent lists
    [`heptio.com.au`] first, since the wrapped strings are the ones that
    are sorted and [.] comes before the closing backtick. *)
Lemma ascending_domains_counterexample :
  certificate_update prefix_update /\
  all_domains prefix_update = (["heptio.com"; "heptio.com.au"], None) /\
  matched heptio ["heptio.com"; "heptio.com.au"] = ["heptio.com"; "heptio.com.au"] /\
  StronglySorted le ["heptio.com"; "heptio.com.au"] /\
  notifications (effects (iteration delivered "hook" heptio prefix_update) 0)
  = [Post "hook" ""
       {| Text := "Found matching certificate for `heptio.com.au` and `heptio.com`: https://crt.sh/?q=AABB" |}] /\
  ~ lists_ascending_domains delivered "hook" heptio prefix_update 0.
Proof.
  split; [reflexivity|]. split; [reflexivity|]. split; [reflexivity|].
  split; [repeat constructor|]. split; [reflexivity|].
  intros (domains & Hd & H).
  assert (domains = ["heptio.com"; "heptio.com.au"]) as ->
    by (vm_compute in Hd; congruence).
  vm_compute in H. discriminate H.
Qed.

(** ** The head of a series *)

(** The rendering of a number does not start with a backtick, so the entry
    for the other domains is not a wrapped domain. *)
Lemma others_not_decorated (n : Z) (d : string) :
  decorate d <> (Sprintf_d n ++ " others")%string.
Proof.
  unfold decorate, Sprintf_d, NilZero.string_of_int.
  destruct (Z.to_int n) as [u|u]; destruct u; simpl; discriminate.
Qed.

(** A series starts with its first word. *)
Lemma OxfordWordSeries_head (w : string) (ws : list string) (conjunction : string) :
  exists tail, english.OxfordWordSeries (w :: ws) conjunction = (w ++ tail)%string.
Proof.
  destruct ws as [|w2 [|w3 ws]].
  - exists ""%string. simpl. now rewrite append_empty_r.
  - eexists. simpl. reflexivity.
  - unfold english.OxfordWordSeries.
    change (removelast (w :: w2 :: w3 :: ws)) with (w :: w2 :: removelast (w3 :: ws)).
    change (Join (w :: w2 :: removelast (w3 :: ws)) ", ")
      with (w ++ ", " ++ Join (w2 :: removelast (w3 :: ws)) ", ")%string.
    eexists. rewrite append_assoc. reflexivity.
Qed.

Lemma sort_Strings_head (l : list string) :
  l <> [] -> exists h t, sort_Strings l = h :: t /\ In h l.
Proof.
  intros Hne.
  destruct (sort_Strings l) as [|h t] eqn:E.
  - apply (f_equal (@length string)) in E. rewrite sort_Strings_length in E.
    destruct l; [congruence | discriminate].
  - exists h, t. split; [reflexivity|].
    apply (Permutation_in _ (sort_Strings_perm l)). rewrite E. now left.
Qed.

(** C10. Every notification that is sent names a matched domain: the list
    joined into its series starts with a domain of the message that the
    pattern matches, wrapped in backticks, the text carries it right after
    its fixed opening words, and the list is never the lone entry for the
    other domains. *)
Theorem notification_names_a_match
    (sink : nat -> list error) (hook : string) (re : Regexp) (msg : JSON) (k : nat)
    (url proxy : string) (payload : Payload) :
  In (Post url proxy payload) (effects (iteration sink hook re msg) k) ->
  exists d more lookup tail,
    In d (fst (all_domains msg)) /\
    MatchString re d = true /\
    Text payload
    = notification_text (english.OxfordWordSeries (decorate d :: more) "and") lookup /\
    english.OxfordWordSeries (decorate d :: more) "and" = (decorate d ++ tail)%string /\
    forall n : Z, decorate d :: more <> [(Sprintf_d n ++ " others")%string].
Proof.
  intros Hin.
  apply post_inversion in Hin as (domains & _ & Hd & Hm & _ & _ & ->).
  rewrite Hd, series_matched. simpl fst.
  assert (map decorate (matched re domains) <> []) as Hne
    by (destruct (matched re domains); [congruence | discriminate]).
  destruct (sort_Strings_head _ Hne) as (h & t & -> & Hh).
  apply in_map_iff in Hh as (d & <- & Hd').
  apply filter_In in Hd' as [Hd' Hmatch].
  set (rest := if (_ <? _)%nat then _ else _).
  destruct (OxfordWordSeries_head (decorate d) (t ++ rest) "and") as [tail Htail].
  exists d, (t ++ rest), (certURL (fst (fingerprint msg))), tail.
  repeat match goal with |- _ /\ _ => split end; auto.
  intros n E. injection E as E _. exact (others_not_decorated n d E).
Qed.

Lemma notification_names_a_match_witness :
  In (Post "hook" ""
        {| Text := "Found matching certificate for `a.heptio.com`, `c.heptio.com`, and 1 others: https://crt.sh/?q=AABBCC" |})
     (effects (iteration delivered "hook" heptio example_update) 0) /\
  exists d more lookup tail,
    In d (fst (all_domains example_update)) /\
    MatchString heptio d = true /\
    "Found matching certificate for `a.heptio.com`, `c.heptio.com`, and 1 others: https://crt.sh/?q=AABBCC"
    = notification_text (english.OxfordWordSeries (decorate d :: more) "and") lookup /\
    english.OxfordWordSeries (decorate d :: more) "and" = (decorate d ++ tail)%string /\
    forall n : Z, decorate d :: more <> [(Sprintf_d n ++ " others")%string].
Proof.
  assert (In (Post "hook" ""
        {| Text := "Found matching certificate for `a.heptio.com`, `c.heptio.com`, and 1 others: https://crt.sh/?q=AABBCC" |})
     (effects (iteration delivered "hook" heptio example_update) 0)) as Hin
    by (vm_compute; left; reflexivity).
  split; [exact Hin|].
  exact (notification_names_a_match delivered "hook" heptio example_update 0 _ _ _ Hin).
Defined.

(** ** Suffixes *)

Lemma length_append (a b : string) :
  String.length (a ++ b) = String.length a + String.length b.
Proof. induction a as [|x a IH]; simpl; [reflexivity | now rewrite IH]. Qed.

Lemma substring_all (s : string) : substring 0 (String.length s) s = s.
Proof. induction s as [|x s IH]; simpl; [reflexivity | now rewrite IH]. Qed.

Lemma substring_skip (p s : string) (m : nat) :
  substring (String.length p) m (p ++ s) = substring 0 m s.
Proof. induction p as [|x p IH]; simpl; [reflexivity | exact IH]. Qed.

Lemma substring_split (s : string) :
  forall k, k <= String.length s ->
    s = (substring 0 k s ++ substring k (String.length s - k) s)%string.
Proof.
  induction s as [|x s IH]; intros [|k] Hk; simpl in *; try lia.
  - reflexivity.
  - now rewrite substring_all.
  - rewrite <- IH by lia. reflexivity.
Qed.

(** [HasSuffix s suffix] holds when [s] ends with [suffix]. *)
Lemma HasSuffix_spec (s suffix : string) :
  HasSuffix s suffix = true <-> exists p, s = (p ++ suffix)%string.
Proof.
  unfold HasSuffix. rewrite andb_true_iff, Nat.leb_le, String.eqb_eq. split.
  - intros [Hle Hsub].
    exists (substring 0 (String.length s - String.length suffix) s).
    pose proof (substring_split s (String.length s - String.length suffix)) as H.
    replace (String.length s - (String.length s - String.length suffix))
      with (String.length suffix) in H by lia.
    rewrite Hsub in H. apply H. lia.
  - intros [p ->]. rewrite length_append. split; [lia|].
    replace (String.length p + String.length suffix - String.length suffix)
      with (String.length p) by lia.
    now rewrite substring_skip, substring_all.
Qed.

(** The series of go-humanize is the series as the amended claim words it. *)
Lemma enumerate_series (w x : string) (rest : list string) :
  (Join (removelast (w :: x :: rest)) ", " ++ ", and " ++ last (w :: x :: rest) "")%string
  = enumerate (w :: x :: rest).
Proof.
  revert w x. induction rest as [|y rest IH]; intros w x.
  - reflexivity.
  - change (removelast (w :: x :: y :: rest)) with (w :: removelast (x :: y :: rest)).
    change (last (w :: x :: y :: rest) "") with (last (x :: y :: rest) "").
    change (enumerate (w :: x :: y :: rest))
      with (w ++ ", " ++ enumerate (x :: y :: rest))%string.
    rewrite <- (IH x y).
    change (removelast (x :: y :: rest)) with (x :: removelast (y :: rest)).
    change (Join (w :: x :: removelast (y :: rest)) ", ")
      with (w ++ ", " ++ Join (x :: removelast (y :: rest)) ", ")%string.
    rewrite append_assoc. reflexivity.
Qed.

Lemma OxfordWordSeries_written (words : list string) :
  english.OxfordWordSeries words "and" = written_series words.
Proof.
  destruct words as [|w1 [|w2 [|w3 rest]]]; try reflexivity.
  unfold english.OxfordWordSeries, written_series.
  rewrite <- (enumerate_series w1 w2 (w3 :: rest)).
  reflexivity.
Qed.

(** C6 (as amended). The text of every notification is
    [Found matching certificate for <series>: <url>], where the series is
    written from the entries for the domains of the message (the sorted
    wrapped matches, then the entry for the other domains): one entry
    alone, two entries joined by [ and ], three and more separated by
    commas with [, and ] before the last, and the URL is the lookup URL
    of the fingerprint of the message; for the domains [a.heptio.com],
    [b.other.com], [c.heptio.com], the pattern [heptio] and the
    fingerprint [AA:BB:CC] the text ends with
    [`a.heptio.com`, `c.heptio.com`, and 1 others: https://crt.sh/?q=AABBCC]. *)
Theorem notification_text_series :
  (forall (sink : nat -> list error) (hook : string) (re : Regexp) (msg : JSON) (k : nat)
          (url proxy : string) (payload : Payload),
     In (Post url proxy payload) (effects (iteration sink hook re msg) k) ->
     Text payload
     = ("Found matching certificate for "
        ++ written_series (sorted_entries re (fst (all_domains msg)))
        ++ ": " ++ "https://crt.sh/?q="
        ++ without ":"%char (fst (fingerprint msg)))%string) /\
  (forall w1 w2 w3 w4 : string,
     written_series [w1] = w1 /\
     written_series [w1; w2] = (w1 ++ " and " ++ w2)%string /\
     written_series [w1; w2; w3] = (w1 ++ ", " ++ w2 ++ ", and " ++ w3)%string /\
     written_series [w1; w2; w3; w4]
     = (w1 ++ ", " ++ w2 ++ ", " ++ w3 ++ ", and " ++ w4)%string) /\
  (forall (sink : nat -> list error) (hook : string),
     notifications (effects (iteration sink hook heptio example_update) 0)
     = [Post hook ""
          {| Text := "Found matching certificate for `a.heptio.com`, `c.heptio.com`, and 1 others: https://crt.sh/?q=AABBCC" |}]) /\
  HasSuffix
    "Found matching certificate for `a.heptio.com`, `c.heptio.com`, and 1 others: https://crt.sh/?q=AABBCC"
    "`a.heptio.com`, `c.heptio.com`, and 1 others: https://crt.sh/?q=AABBCC" = true.
Proof.
  split; [|split; [|split]].
  - intros sink hook re msg k url proxy payload Hin.
    apply post_inversion in Hin as (domains & _ & Hd & Hm & _ & _ & ->).
    rewrite Hd. unfold payloadFor, certURL, sorted_entries. cbn [Text fst].
    rewrite series_matched, OxfordWordSeries_written, Replace_byte_empty.
    reflexivity.
  - intros w1 w2 w3 w4. repeat split; reflexivity.
  - intros sink hook.
    rewrite (notifications_match sink hook heptio example_update
               ["a.heptio.com"; "b.other.com"; "c.heptio.com"] 0 eq_refl eq_refl)
      by discriminate.
    reflexivity.
  - reflexivity.
Qed.

Lemma notification_text_series_witness :
  In (Post "hook" ""
        {| Text := "Found matching certificate for `a.heptio.com`, `c.heptio.com`, and 1 others: https://crt.sh/?q=AABBCC" |})
     (effects (iteration delivered "hook" heptio example_update) 0) /\
  "Found matching certificate for `a.heptio.com`, `c.heptio.com`, and 1 others: https://crt.sh/?q=AABBCC"
  = ("Found matching certificate for "
     ++ written_series (sorted_entries heptio (fst (all_domains example_update)))
     ++ ": " ++ "https://crt.sh/?q="
     ++ without ":"%char (fst (fingerprint example_update)))%string.
Proof.
  assert (In (Post "hook" ""
        {| Text := "Found matching certificate for `a.heptio.com`, `c.heptio.com`, and 1 others: https://crt.sh/?q=AABBCC" |})
     (effects (iteration delivered "hook" heptio example_update) 0)) as Hin
    by (vm_compute; left; reflexivity).
  split; [exact Hin|].
  exact (proj1 notification_text_series delivered "hook" heptio example_update 0 _ _ _ Hin).
Defined.

(** C6 (as stated) fails on its own example: the three entries of the
    series are separated by commas, so the text sent does not end with
    [`a.heptio.com` and `c.heptio.com` and 1 others: ...].  The series
    without the serial comma does not end that way either. *)
Lemma example_text_counterexample :
  certificate_update example_update /\
  all_domains example_update = (["a.heptio.com"; "b.other.com"; "c.heptio.com"], None) /\
  fingerprint example_update = ("AA:BB:CC", None) /\
  notifications (effects (iteration delivered "hook" heptio example_update) 0)
  = [Post "hook" ""
       {| Text := "Found matching certificate for `a.heptio.com`, `c.heptio.com`, and 1 others: https://crt.sh/?q=AABBCC" |}] /\
  HasSuffix
    "Found matching certificate for `a.heptio.com`, `c.heptio.com`, and 1 others: https://crt.sh/?q=AABBCC"
    "`a.heptio.com` and `c.heptio.com` and 1 others: https://crt.sh/?q=AABBCC" = false /\
  HasSuffix
    (notification_text
       (english.WordSeries ["`a.heptio.com`"; "`c.heptio.com`"; "1 others"] "and")
       "https://crt.sh/?q=AABBCC")
    "`a.heptio.com` and `c.heptio.com` and 1 others: https://crt.sh/?q=AABBCC" = false.
Proof.
  repeat split; reflexivity.
Qed.

(** ** The loop and the start-up checks *)

Lemma existsb_failed (feed : list (JSON * option error)) :
  existsb failedb feed = true <-> Exists (fun r => snd r <> None) feed.
Proof.
  rewrite existsb_exists, Exists_exists.
  split; intros (r & Hin & Hr); exists r; split; auto;
    unfold failedb in *; destruct (snd r); congruence.
Qed.

Section Loop.

Variable sink : nat -> list error.
Variable hook : string.
Variable re : Regexp.

(** The loop stops at the first read that fails, and only there. *)
Lemma loop_outcome (feed : list (JSON * option error)) :
  forall p,
    fst (loop sink hook re feed p)
    = if existsb failedb feed then Exit 1 else Blocked.
Proof.
  induction feed as [|[msg [e|]] rest IH]; intros p; simpl; try reflexivity.
  unfold bind. destruct (iteration sink hook re msg p) as [u p']. apply IH.
Qed.

(** When it stops, the last thing it did was to log a fatal entry. *)
Lemma loop_fatal_last (feed : list (JSON * option error)) :
  forall p,
    fst (loop sink hook re feed p) = Exit 1 ->
    exists pre last,
      trace (snd (loop sink hook re feed p)) = pre ++ [last] /\ is_Fatal last.
Proof.
  induction feed as [|[msg [e|]] rest IH]; intros p; simpl.
  - discriminate.
  - intros _. eexists (trace p), _. split; [reflexivity|].
    eexists. split; reflexivity.
  - unfold bind. destruct (iteration sink hook re msg p) as [u p']. apply IH.
Qed.

(** The loop body logs at the error level only. *)
Lemma iteration_logs_errors (msg : JSON) (k : nat) (entry : Entry) :
  In (Log entry) (effects (iteration sink hook re msg) k) -> level entry = ErrorLevel.
Proof.
  intros Hin. unfold effects in Hin.
  destruct (string_dec (fst (message_type msg)) "certificate_update") as [Ht|Ht].
  2:{ rewrite iteration_skipped in Hin by exact Ht. contradiction. }
  destruct (all_domains msg) as [domains [e|]] eqn:Hd.
  { rewrite (iteration_no_domains sink hook re msg e) in Hin
      by (assumption || now rewrite Hd).
    simpl in Hin. destruct Hin as [Hin|[]]. now injection Hin as <-. }
  destruct (matched re domains) as [|d ds] eqn:Hm.
  { rewrite (iteration_no_match sink hook re msg domains) in Hin by assumption.
    contradiction. }
  rewrite (iteration_match sink hook re msg domains) in Hin
    by (assumption || (rewrite Hm; discriminate)).
  simpl in Hin.
  apply in_app_or in Hin as [Hin|[Hin|Hin]].
  - destruct (snd (fingerprint msg)); simpl in Hin; [|contradiction].
    destruct Hin as [Hin|[]]. now injection Hin as <-.
  - discriminate.
  - apply in_map_iff in Hin as (e & He & _). now injection He as <-.
Qed.

End Loop.

(** C9. The process exits, with status 1 and a fatal log entry as its last
    act, exactly when a configuration variable is empty, the pattern does
    not compile, the connection to the feed cannot be opened, or a read on
    the connection fails; otherwise it keeps waiting for messages.  A
    failed delivery is none of these: the outcome of a run does not depend
    on the webhook client; after the post for a matching message, every
    error that [slack.Send] returned is logged at the error level with
    the message [error sending webhook], and the loop goes on with the
    next message; no message ends the process, whatever its delivery. *)
Theorem fatal_conditions (w : World) :
  (fst (run (main w)) = Exit 1 <->
   missing_configuration w \/ invalid_pattern w \/ connection_failure w \/ decode_failure w) /\
  (fst (run (main w)) <> Exit 1 -> fst (run (main w)) = Blocked) /\
  (fst (run (main w)) = Exit 1 ->
   exists pre last, snd (run (main w)) = pre ++ [last] /\ is_Fatal last) /\
  (forall sink, fst (run (main (with_Send w sink))) = fst (run (main w))) /\
  (forall hook re msg k entry,
     In (Log entry) (effects (iteration (Send w) hook re msg) k) ->
     level entry = ErrorLevel) /\
  (forall hook re msg rest p,
     loop (Send w) hook re ((msg, None) :: rest) p
     = loop (Send w) hook re rest (snd (iteration (Send w) hook re msg p))) /\
  (forall hook re msg domains rest p,
     certificate_update msg ->
     all_domains msg = (domains, None) ->
     (exists d, In d domains /\ MatchString re d = true) ->
     loop (Send w) hook re ((msg, None) :: rest) p
     = loop (Send w) hook re rest
         {| trace :=
              trace p
              ++ match snd (fingerprint msg) with
                 | Some e => [fingerprint_entry e]
                 | None => []
                 end
              ++ Post hook ""
                   (payloadFor (series domains (collect re domains))
                               (certURL (fst (fingerprint msg))))
              :: map (fun err =>
                        Log {| level := ErrorLevel; cause := Some err;
                               fields := [("fingerprint", fst (fingerprint msg))];
                               message := "error sending webhook" |})
                     (Send w (posts p));
            posts := S (posts p) |}) /\
  (forall hook re msg p, fst (loop (Send w) hook re [(msg, None)] p) = Blocked).
Proof.
  assert (forall w', fst (run (main w'))
            = if (Getenv w' "SLACK_WEBHOOK_URL" =? "")%string then Exit 1
              else if (Getenv w' "DOMAIN_PATTERN" =? "")%string then Exit 1
              else match snd (Compile w' (Getenv w' "DOMAIN_PATTERN")) with
                   | Some _ => Exit 1
                   | None => match Dial w' certStreamURL with
                             | Some _ => Exit 1
                             | None => if existsb failedb (feed w') then Exit 1 else Blocked
                             end
                   end) as Hout.
  { intros w'. unfold run, main.
    destruct (Getenv w' "SLACK_WEBHOOK_URL" =? "")%string; [reflexivity|].
    destruct (Getenv w' "DOMAIN_PATTERN" =? "")%string; [reflexivity|].
    destruct (Compile w' (Getenv w' "DOMAIN_PATTERN")) as [rx [e|]]; [reflexivity|].
    destruct (Dial w' certStreamURL); [reflexivity|]. simpl snd.
    unfold bind, log_Info, emit.
    match goal with
    | |- context [loop ?s ?h ?r ?f ?p] =>
        rewrite <- (loop_outcome s h r f p); destruct (loop s h r f p); reflexivity
    end. }
  split; [|split; [|split; [|split; [|split; [|split; [|split]]]]]].
  - rewrite Hout.
    unfold missing_configuration, invalid_pattern, connection_failure, decode_failure.
    rewrite <- existsb_failed.
    destruct (Getenv w "SLACK_WEBHOOK_URL" =? "")%string eqn:E1;
      [apply String.eqb_eq in E1; tauto | apply String.eqb_neq in E1].
    destruct (Getenv w "DOMAIN_PATTERN" =? "")%string eqn:E2;
      [apply String.eqb_eq in E2; tauto | apply String.eqb_neq in E2].
    destruct (snd (Compile w (Getenv w "DOMAIN_PATTERN"))) eqn:E3;
      [split; [intros _; right; left; discriminate | reflexivity] |].
    destruct (Dial w certStreamURL) eqn:E4;
      [split; [intros _; right; right; left; discriminate | reflexivity] |].
    destruct (existsb failedb (feed w)) eqn:E5.
    + split; [intros _; repeat right; reflexivity | reflexivity].
    + split; [discriminate|].
      intros [[H|H]|[H|[H|H]]]; congruence.
  - rewrite Hout.
    destruct (Getenv w "SLACK_WEBHOOK_URL" =? "")%string; [congruence|].
    destruct (Getenv w "DOMAIN_PATTERN" =? "")%string; [congruence|].
    destruct (snd (Compile w (Getenv w "DOMAIN_PATTERN"))); [congruence|].
    destruct (Dial w certStreamURL); [congruence|].
    destruct (existsb failedb (feed w)); congruence.
  - unfold run, main.
    destruct (Getenv w "SLACK_WEBHOOK_URL" =? "")%string.
    { intros _. eexists [], _. split; [reflexivity|]. eexists; split; reflexivity. }
    destruct (Getenv w "DOMAIN_PATTERN" =? "")%string.
    { intros _. eexists [], _. split; [reflexivity|]. eexists; split; reflexivity. }
    destruct (Compile w (Getenv w "DOMAIN_PATTERN")) as [rx [e|]].
    { intros _. eexists [], _. split; [reflexivity|]. eexists; split; reflexivity. }
    destruct (Dial w certStreamURL).
    { intros _. eexists [], _. split; [reflexivity|]. eexists; split; reflexivity. }
    unfold bind, log_Info, emit.
    match goal with
    | |- context [loop ?s ?h ?r ?f ?p] =>
        pose proof (loop_fatal_last s h r f p) as Hlast;
        destruct (loop s h r f p) as [o p'] eqn:El
    end.
    simpl in *. exact Hlast.
  - intros sink. rewrite !Hout. reflexivity.
  - intros hook re msg k entry. apply iteration_logs_errors.
  - intros hook re msg rest p. simpl. unfold bind.
    destruct (iteration (Send w) hook re msg p) as [u p']. reflexivity.
  - intros hook re msg domains rest p Ht Hd Hm.
    apply matched_nonempty in Hm. simpl. unfold bind.
    rewrite (iteration_match (Send w) hook re msg domains p Ht Hd Hm), collect_matched.
    reflexivity.
  - intros hook re msg p. now rewrite loop_outcome.
Qed.

Lemma fatal_conditions_witness :
  (decode_failure (watching [(heartbeat, None); (JNull, Some (External "unexpected EOF"))]
                            refused) /\
   fst (run (main (watching [(heartbeat, None); (JNull, Some (External "unexpected EOF"))]
                            refused))) = Exit 1) /\
  ((certificate_update example_update /\
    all_domains example_update = (["a.heptio.com"; "b.other.com"; "c.heptio.com"], None) /\
    exists d, In d ["a.heptio.com"; "b.other.com"; "c.heptio.com"] /\
              MatchString heptio d = true) /\
   loop refused "hook" heptio [(example_update, None)] start
   = (Blocked,
      {| trace :=
           [Post "hook" ""
              {| Text := "Found matching certificate for `a.heptio.com`, `c.heptio.com`, and 1 others: https://crt.sh/?q=AABBCC" |};
            Log {| level := ErrorLevel;
                   cause := Some (External "503 Service Unavailable");
                   fields := [("fingerprint", "AA:BB:CC")];
                   message := "error sending webhook" |}];
         posts := 1 |})).
Proof.
  assert (decode_failure
            (watching [(heartbeat, None); (JNull, Some (External "unexpected EOF"))]
                      refused)) as H
    by (apply Exists_cons_tl, Exists_cons_hd; discriminate).
  assert (exists d, In d ["a.heptio.com"; "b.other.com"; "c.heptio.com"] /\
                    MatchString heptio d = true) as Hm
    by (exists "a.heptio.com"; split; [now left | reflexivity]).
  destruct (fatal_conditions
              (watching [(heartbeat, None); (JNull, Some (External "unexpected EOF"))]
                        refused))
    as (Hexit & _ & _ & _ & _ & _ & Hdelivery & _).
  split; [split; [exact H | apply Hexit; right; right; right; exact H] |].
  split; [split; [reflexivity | split; [reflexivity | exact Hm]] |].
  exact (Hdelivery "hook" heptio example_update
           ["a.heptio.com"; "b.other.com"; "c.heptio.com"] [] start eq_refl eq_refl Hm).
Defined.

(** A run in which every delivery is refused: the first message is
    reported and the refusal logged, the heartbeat is passed over, the
    message without domains is logged, and the process stops at the read
    that fails, before the last message. *)
Example refused_deliveries_run :
  run (main (watching [(example_update, None); (heartbeat, None);
                       (update_without_domains, None);
                       (JNull, Some (External "unexpected EOF"));
                       (example_update, None)] refused))
  = (Exit 1,
     [Log {| level := InfoLevel; cause := None;
             fields := [("domainPattern", "heptio")];
             message := "watching for certificates" |};
      Post "https://hooks.slack.com/services/T/B/X" ""
        {| Text := "Found matching certificate for `a.heptio.com`, `c.heptio.com`, and 1 others: https://crt.sh/?q=AABBCC" |};
      delivery_entry "AA:BB:CC" (External "503 Service Unavailable");
      domains_entry (MissingField "data");
      Log {| level := FatalLevel; cause := Some (External "unexpected EOF");
             fields := []; message := "error decoding JSON" |}]).
Proof. reflexivity. Qed.

(** * Further properties of the loop *)

Section Frame.

Variable sink : nat -> list error.
Variable hook : string.
Variable re : Regexp.

(** The body adds its effects to the trace and counts its posts. *)
Lemma iteration_frame (msg : JSON) (p : Proc) :
  iteration sink hook re msg p
  = (tt, {| trace := trace p ++ effects (iteration sink hook re msg) (posts p);
            posts := posts p
                     + length (notifications (effects (iteration sink hook re msg) (posts p))) |}).
Proof.
  unfold effects.
  destruct (string_dec (fst (message_type msg)) "certificate_update") as [Ht|Ht].
  2:{ rewrite !iteration_skipped by exact Ht. simpl.
      rewrite Nat.add_0_r. now rewrite Proc_eta. }
  destruct (all_domains msg) as [domains [e|]] eqn:Hd.
  { rewrite !(iteration_no_domains sink hook re msg e)
      by (assumption || now rewrite Hd).
    simpl. now rewrite Nat.add_0_r. }
  destruct (matched re domains) as [|d ds] eqn:Hm.
  { rewrite !(iteration_no_match sink hook re msg domains) by assumption.
    simpl. rewrite Nat.add_0_r. now rewrite Proc_eta. }
  assert (matched re domains <> []) as Hne by (rewrite Hm; discriminate).
  rewrite !(iteration_match sink hook re msg domains _ Ht Hd Hne). simpl.
  rewrite notifications_app. simpl. rewrite notifications_delivery.
  replace (notifications _) with (@nil Effect)
    by (destruct (snd (fingerprint msg)); reflexivity).
  simpl. now rewrite Nat.add_1_r.
Qed.

Lemma matching_matched (msg : JSON) (domains : list string) :
  certificate_update msg ->
  all_domains msg = (domains, None) ->
  matching re msg = negb (length (matched re domains) =? 0)%nat.
Proof.
  unfold matching, certificate_update. intros -> ->. simpl.
  unfold matched. induction domains as [|d ds IH]; simpl; [reflexivity|].
  destruct (MatchString re d); simpl; [reflexivity | exact IH].
Qed.

(** The body posts once for a matching message and not at all for another. *)
Lemma notifications_count (msg : JSON) (k : nat) :
  length (notifications (effects (iteration sink hook re msg) k))
  = if matching re msg then 1 else 0.
Proof.
  destruct (string_dec (fst (message_type msg)) "certificate_update") as [Ht|Ht].
  2:{ unfold effects. rewrite iteration_skipped by exact Ht.
      unfold matching. apply String.eqb_neq in Ht. now rewrite Ht. }
  destruct (all_domains msg) as [domains [e|]] eqn:Hd.
  { unfold effects.
    rewrite (iteration_no_domains sink hook re msg e)
      by (assumption || now rewrite Hd).
    unfold matching. rewrite Hd. simpl. now rewrite andb_false_r. }
  rewrite (matching_matched msg domains Ht Hd).
  destruct (matched re domains) as [|d ds] eqn:Hm.
  { unfold effects.
    now rewrite (iteration_no_match sink hook re msg domains _ Ht Hd Hm). }
  assert (matched re domains <> []) as Hne by (rewrite Hm; discriminate).
  now rewrite (notifications_match sink hook re msg domains k Ht Hd Hne).
Qed.

(** The loop on a feed in two parts: the second part is processed from the
    state the first part leaves, provided no read of the first part fails. *)
Lemma loop_app (a b : list (JSON * option error)) :
  existsb failedb a = false ->
  forall p,
    loop sink hook re (a ++ b) p = loop sink hook re b (snd (loop sink hook re a p)).
Proof.
  induction a as [|[msg [e|]] a IH]; simpl; intros Ha p.
  - reflexivity.
  - discriminate.
  - unfold bind. destruct (iteration sink hook re msg p) as [u p']. now apply IH.
Qed.

End Frame.

(** ** Runs of [main] *)

(** A run either stops at start-up on a single fatal entry, or it is the
    run of the loop after the entry that announces the pattern. *)
Lemma run_main_cases (w : World) :
  (exists entry,
     run (main w) = (Exit 1, [Log entry]) /\ level entry = FatalLevel /\
     (missing_configuration w \/ invalid_pattern w \/ connection_failure w)) \/
  (exists re,
     started w re /\
     run (main w)
     = (fst (loop (Send w) (Getenv w "SLACK_WEBHOOK_URL") re (feed w)
               {| trace := [watching_entry re]; posts := 0 |}),
        trace (snd (loop (Send w) (Getenv w "SLACK_WEBHOOK_URL") re (feed w)
                      {| trace := [watching_entry re]; posts := 0 |})))).
Proof.
  unfold run, main, started, missing_configuration, invalid_pattern, connection_failure.
  destruct (Getenv w "SLACK_WEBHOOK_URL" =? "")%string eqn:E1.
  { apply String.eqb_eq in E1. left. eexists. repeat split; auto. }
  destruct (Getenv w "DOMAIN_PATTERN" =? "")%string eqn:E2.
  { apply String.eqb_eq in E2. left. eexists. repeat split; auto. }
  apply String.eqb_neq in E1, E2.
  destruct (Compile w (Getenv w "DOMAIN_PATTERN")) as [rx [e|]] eqn:E3.
  { left. eexists. repeat split; auto. right; left. simpl. discriminate. }
  destruct (Dial w certStreamURL) as [e|] eqn:E4.
  { left. eexists. repeat split; auto. right; right. discriminate. }
  right. exists rx. repeat split; auto.
  unfold bind, log_Info, emit. simpl.
  fold (watching_entry rx).
  destruct (loop _ _ _ _ _) as [o p']. reflexivity.
Qed.

Lemma started_not_failed (w : World) (re : Regexp) :
  started w re ->
  ~ (missing_configuration w \/ invalid_pattern w \/ connection_failure w).
Proof.
  unfold started, missing_configuration, invalid_pattern, connection_failure.
  intros (H1 & H2 & H3 & H4) [[H|H]|[H|H]]; try contradiction.
  rewrite H3 in H. now apply H.
Qed.

Lemma started_unique (w : World) (re re' : Regexp) :
  started w re -> started w re' -> re = re'.
Proof.
  unfold started. intros (_ & _ & H & _) (_ & _ & H' & _). congruence.
Qed.

(** The run of a process that started. *)
Lemma run_main_started (w : World) (re : Regexp) :
  started w re ->
  run (main w)
  = (fst (loop (Send w) (Getenv w "SLACK_WEBHOOK_URL") re (feed w)
            {| trace := [watching_entry re]; posts := 0 |}),
     trace (snd (loop (Send w) (Getenv w "SLACK_WEBHOOK_URL") re (feed w)
                   {| trace := [watching_entry re]; posts := 0 |}))).
Proof.
  intros Hs. destruct (run_main_cases w) as [(entry & _ & _ & Hf)|(re' & Hs' & Hrun)].
  - now destruct (started_not_failed w re Hs).
  - now rewrite (started_unique w re re' Hs Hs').
Qed.

Section Runs.

Variable sink : nat -> list error.
Variable hook : string.
Variable re : Regexp.

Lemma loop_posts (feed : list (JSON * option error)) :
  forall p url proxy payload,
    In (Post url proxy payload) (trace (snd (loop sink hook re feed p))) ->
    In (Post url proxy payload) (trace p) \/ (url = hook /\ proxy = "").
Proof.
  induction feed as [|[msg [e|]] rest IH]; intros p url proxy payload; simpl.
  - auto.
  - intros Hin. apply in_app_or in Hin as [Hin|[Hin|[]]]; [now left | discriminate].
  - unfold bind. rewrite iteration_frame. intros Hin.
    apply IH in Hin as [Hin|Hin]; [|now right]. simpl in Hin.
    apply in_app_or in Hin as [Hin|Hin]; [now left|].
    apply post_inversion in Hin as (_ & _ & _ & _ & -> & -> & _). now right.
Qed.

(** Nothing is read after a read that failed. *)
Lemma loop_cut (a b : list (JSON * option error)) (m : JSON) (e : error) :
  forall p,
    loop sink hook re (a ++ (m, Some e) :: b) p
    = loop sink hook re (a ++ [(m, Some e)]) p.
Proof.
  induction a as [|[msg [e'|]] a IH]; intros p; simpl; try reflexivity.
  unfold bind. destruct (iteration sink hook re msg p) as [u p']. apply IH.
Qed.

(** A message that is not a certificate_update can be taken out of the feed. *)
Lemma loop_drop (a b : list (JSON * option error)) (msg : JSON) :
  fst (message_type msg) <> "certificate_update" ->
  forall p,
    loop sink hook re (a ++ (msg, None) :: b) p = loop sink hook re (a ++ b) p.
Proof.
  intros Ht. induction a as [|[m [e'|]] a IH]; intros p; simpl.
  - unfold bind. now rewrite iteration_skipped.
  - reflexivity.
  - unfold bind. destruct (iteration sink hook re m p) as [u p']. apply IH.
Qed.

(** The posts of the loop: one for each matching message that is read. *)
Lemma loop_notifications (feed : list (JSON * option error)) :
  forall p,
    length (notifications (trace (snd (loop sink hook re feed p))))
    = length (notifications (trace p)) + length (filter (matching re) (readable feed)) /\
    posts (snd (loop sink hook re feed p))
    = posts p + length (filter (matching re) (readable feed)).
Proof.
  induction feed as [|[msg [e|]] rest IH]; intros p; simpl.
  - now rewrite !Nat.add_0_r.
  - rewrite notifications_app, length_app. simpl. lia.
  - unfold bind. rewrite iteration_frame.
    destruct (IH {| trace := trace p ++ effects (iteration sink hook re msg) (posts p);
                    posts := posts p
                             + length (notifications
                                         (effects (iteration sink hook re msg) (posts p))) |})
      as [IH1 IH2].
    rewrite IH1, IH2. simpl.
    rewrite notifications_app, length_app, notifications_count.
    destruct (matching re msg); simpl; lia.
Qed.

(** The trace of the loop: effects that are not fatal, then the fatal
    entry of the read that failed, if one did. *)
Lemma loop_nonfatal (feed : list (JSON * option error)) :
  forall p,
    Forall nonfatal (trace p) ->
    exists body tail,
      trace (snd (loop sink hook re feed p)) = body ++ tail /\
      Forall nonfatal body /\
      ((existsb failedb feed = false /\ tail = []) \/
       (existsb failedb feed = true /\
        exists entry, tail = [Log entry] /\ level entry = FatalLevel)).
Proof.
  induction feed as [|[msg [e|]] rest IH]; intros p Hp; simpl.
  - exists (trace p), []. rewrite app_nil_r. auto.
  - exists (trace p). eexists. split; [reflexivity|]. split; [exact Hp|].
    right. split; [reflexivity|]. eexists. split; reflexivity.
  - unfold bind. rewrite iteration_frame. apply IH. simpl.
    apply Forall_app. split; [exact Hp|].
    apply Forall_forall. intros [entry|url proxy payload] Hin; simpl; [|exact I].
    rewrite (iteration_logs_errors sink hook re msg _ entry Hin). discriminate.
Qed.

End Runs.

(** X1. Whatever the feed delivers, every post of a run goes to the
    webhook URL read from [SLACK_WEBHOOK_URL], which is not empty, and
    through no proxy. *)
Theorem posts_go_to_configured_webhook
    (w : World) (url proxy : string) (payload : Payload) :
  In (Post url proxy payload) (snd (run (main w))) ->
  url = Getenv w "SLACK_WEBHOOK_URL" /\ url <> "" /\ proxy = "".
Proof.
  intros Hin.
  destruct (run_main_cases w) as [(entry & Hrun & _)|(re & Hs & Hrun)];
    rewrite Hrun in Hin; simpl in Hin.
  - destruct Hin as [Hin|[]]. discriminate.
  - apply loop_posts in Hin as [Hin|[-> ->]].
    + destruct Hin as [Hin|[]]. discriminate.
    + destruct Hs as (Hurl & _). auto.
Qed.

Lemma posts_go_to_configured_webhook_witness :
  In (Post "https://hooks.slack.com/services/T/B/X" ""
        {| Text := "Found matching certificate for `a.heptio.com`, `c.heptio.com`, and 1 others: https://crt.sh/?q=AABBCC" |})
     (snd (run (main (watching [(heartbeat, None); (example_update, None)] refused)))) /\
  "https://hooks.slack.com/services/T/B/X"
  = Getenv (watching [(heartbeat, None); (example_update, None)] refused) "SLACK_WEBHOOK_URL" /\
  "https://hooks.slack.com/services/T/B/X" <> "" /\ "" = "".
Proof.
  assert (In (Post "https://hooks.slack.com/services/T/B/X" ""
        {| Text := "Found matching certificate for `a.heptio.com`, `c.heptio.com`, and 1 others: https://crt.sh/?q=AABBCC" |})
     (snd (run (main (watching [(heartbeat, None); (example_update, None)] refused))))) as Hin
    by (vm_compute; right; left; reflexivity).
  split; [exact Hin|].
  exact (posts_go_to_configured_webhook _ _ _ _ Hin).
Defined.

(** X2. Nothing that follows a failed read matters: a run on a feed is the
    run on the feed cut after its first failed read; the messages behind
    it are never processed. *)
Theorem reads_after_failure_ignored
    (w : World) (a b : list (JSON * option error)) (m : JSON) (e : error) :
  run (main (with_feed w (a ++ (m, Some e) :: b)))
  = run (main (with_feed w (a ++ [(m, Some e)]))).
Proof.
  unfold run, main, with_feed. simpl.
  destruct (Getenv w "SLACK_WEBHOOK_URL" =? "")%string; [reflexivity|].
  destruct (Getenv w "DOMAIN_PATTERN" =? "")%string; [reflexivity|].
  destruct (Compile w (Getenv w "DOMAIN_PATTERN")) as [rx [e'|]]; [reflexivity|].
  destruct (Dial w certStreamURL); [reflexivity|].
  unfold bind, log_Info, emit. now rewrite loop_cut.
Qed.

(** X3. A message that is not a certificate_update (a heartbeat, a message
    without [message_type]) leaves no mark on a run: taking it out of the
    feed gives the same outcome and the same effects. *)
Theorem other_messages_leave_no_mark
    (w : World) (a b : list (JSON * option error)) (msg : JSON) :
  fst (message_type msg) <> "certificate_update" ->
  run (main (with_feed w (a ++ (msg, None) :: b))) = run (main (with_feed w (a ++ b))).
Proof.
  intros Ht. unfold run, main, with_feed. simpl.
  destruct (Getenv w "SLACK_WEBHOOK_URL" =? "")%string; [reflexivity|].
  destruct (Getenv w "DOMAIN_PATTERN" =? "")%string; [reflexivity|].
  destruct (Compile w (Getenv w "DOMAIN_PATTERN")) as [rx [e'|]]; [reflexivity|].
  destruct (Dial w certStreamURL); [reflexivity|].
  unfold bind, log_Info, emit. now rewrite (loop_drop _ _ _ _ _ _ Ht).
Qed.

Lemma other_messages_leave_no_mark_witness :
  fst (message_type heartbeat) <> "certificate_update" /\
  run (main (with_feed (watching [] refused)
               ([(example_update, None)] ++ (heartbeat, None) :: [(example_update, None)])))
  = run (main (with_feed (watching [] refused)
                 ([(example_update, None)] ++ [(example_update, None)]))).
Proof.
  assert (fst (message_type heartbeat) <> "certificate_update") as Ht by discriminate.
  split; [exact Ht|].
  exact (other_messages_leave_no_mark (watching [] refused) [(example_update, None)]
           [(example_update, None)] heartbeat Ht).
Defined.

(** X4. A process that started posts exactly once for each message read
    before the first failed read that is a certificate_update with
    readable domains of which one matches, and for no other message;
    failed deliveries are not tried again. *)
Theorem one_post_per_matching_message (w : World) (re : Regexp) :
  started w re ->
  length (notifications (snd (run (main w))))
  = length (filter (matching re) (readable (feed w))).
Proof.
  intros Hs. rewrite (run_main_started w re Hs). simpl.
  now rewrite (proj1 (loop_notifications _ _ _ _ _)).
Qed.

Lemma one_post_per_matching_message_witness :
  started (watching [(example_update, None); (heartbeat, None); (prefix_update, None);
                     (update ["x.com"] "AA", None);
                     (JNull, Some (External "unexpected EOF"));
                     (example_update, None)] refused) heptio /\
  length (notifications (snd (run (main
            (watching [(example_update, None); (heartbeat, None); (prefix_update, None);
                       (update ["x.com"] "AA", None);
                       (JNull, Some (External "unexpected EOF"));
                       (example_update, None)] refused))))) = 2.
Proof.
  assert (started (watching [(example_update, None); (heartbeat, None);
                             (prefix_update, None); (update ["x.com"] "AA", None);
                             (JNull, Some (External "unexpected EOF"));
                             (example_update, None)] refused) heptio) as Hs
    by (repeat split; discriminate).
  split; [exact Hs|].
  exact (one_post_per_matching_message _ heptio Hs).
Defined.

(** X5. A fatal log entry is the last effect of a run, and there is at
    most one: the effects of a process that is still waiting for messages
    hold no fatal entry, and the effects of a process that exited hold
    exactly one, at the end. *)
Theorem fatal_entry_ends_run (w : World) :
  exists body tail,
    snd (run (main w)) = body ++ tail /\
    Forall nonfatal body /\
    ((fst (run (main w)) = Blocked /\ tail = []) \/
     (fst (run (main w)) = Exit 1 /\
      exists entry, tail = [Log entry] /\ level entry = FatalLevel)).
Proof.
  destruct (run_main_cases w) as [(entry & Hrun & Hl & _)|(re & Hs & Hrun)];
    rewrite Hrun; simpl.
  - exists [], [Log entry]. split; [reflexivity|]. split; [constructor|].
    right. split; [reflexivity|]. now exists entry.
  - destruct (loop_nonfatal (Send w) (Getenv w "SLACK_WEBHOOK_URL") re (feed w)
                {| trace := [watching_entry re]; posts := 0 |})
      as (body & tail & Htrace & Hbody & Hcases).
    { simpl. constructor; [simpl; discriminate | constructor]. }
    exists body, tail. split; [exact Htrace|]. split; [exact Hbody|].
    rewrite loop_outcome.
    destruct Hcases as [[-> ->]|[-> Htail]]; auto.
Qed.

(** X6. When a configuration variable is empty, the pattern does not
    compile or the connection cannot be opened, the run is one fatal log
    entry and the exit: nothing is posted, and the feed is not looked at. *)
Theorem startup_failure_stops_before_feed (w : World) :
  missing_configuration w \/ invalid_pattern w \/ connection_failure w ->
  exists entry,
    run (main w) = (Exit 1, [Log entry]) /\
    level entry = FatalLevel /\
    forall f, run (main (with_feed w f)) = (Exit 1, [Log entry]).
Proof.
  intros Hf.
  destruct (run_main_cases w) as [(entry & Hrun & Hl & _)|(re & Hs & _)].
  2:{ now destruct (started_not_failed w re Hs). }
  exists entry. split; [exact Hrun|]. split; [exact Hl|].
  intros f. revert Hrun. unfold run, main, with_feed. simpl.
  destruct (Getenv w "SLACK_WEBHOOK_URL" =? "")%string eqn:E1; [auto|].
  destruct (Getenv w "DOMAIN_PATTERN" =? "")%string eqn:E2; [auto|].
  destruct (Compile w (Getenv w "DOMAIN_PATTERN")) as [rx [e'|]] eqn:E3; [auto|].
  destruct (Dial w certStreamURL) eqn:E4; [auto|].
  exfalso. apply (started_not_failed w rx); [|exact Hf].
  apply String.eqb_neq in E1, E2. repeat split; assumption.
Qed.

Lemma startup_failure_stops_before_feed_witness :
  (missing_configuration (offline [(example_update, None)]) \/
   invalid_pattern (offline [(example_update, None)]) \/
   connection_failure (offline [(example_update, None)])) /\
  exists entry,
    run (main (offline [(example_update, None)])) = (Exit 1, [Log entry]) /\
    level entry = FatalLevel /\
    forall f, run (main (with_feed (offline [(example_update, None)]) f))
              = (Exit 1, [Log entry]).
Proof.
  assert (missing_configuration (offline [(example_update, None)]) \/
          invalid_pattern (offline [(example_update, None)]) \/
          connection_failure (offline [(example_update, None)])) as H
    by (right; right; unfold connection_failure; simpl; discriminate).
  split; [exact H|].
  exact (startup_failure_stops_before_feed (offline [(example_update, None)]) H).
Defined.

(** ** The order of the domains *)

Lemma matched_perm (re : Regexp) (d1 d2 : list string) :
  Permutation d1 d2 -> Permutation (matched re d1) (matched re d2).
Proof.
  unfold matched. induction 1 as [|x l l' HP IH|x y l|l l' l'' HP1 IH1 HP2 IH2]; simpl.
  - constructor.
  - destruct (MatchString re x); [now constructor | exact IH].
  - destruct (MatchString re x), (MatchString re y);
      try reflexivity; apply perm_swap.
  - now transitivity (filter (MatchString re) l').
Qed.

Lemma series_perm (re : Regexp) (d1 d2 : list string) :
  Permutation d1 d2 ->
  series d1 (map decorate (matched re d1)) = series d2 (map decorate (matched re d2)).
Proof.
  intros HP. pose proof (matched_perm re d1 d2 HP) as HM.
  rewrite !series_matched.
  rewrite (Permutation_length HP), (Permutation_length HM).
  f_equal.
  apply sorted_unique; try apply sort_Strings_sorted.
  rewrite !sort_Strings_perm. now apply Permutation_map.
Qed.

(** X7. The order in which a certificate names its domains does not show:
    two certificate_update messages with the same fingerprint whose lists
    of domains are permutations of each other produce the same effects,
    so the same notification text. *)
Theorem domain_order_irrelevant
    (sink : nat -> list error) (hook : string) (re : Regexp)
    (msg1 msg2 : JSON) (d1 d2 : list string) (k : nat) :
  certificate_update msg1 ->
  certificate_update msg2 ->
  all_domains msg1 = (d1, None) ->
  all_domains msg2 = (d2, None) ->
  Permutation d1 d2 ->
  fingerprint msg1 = fingerprint msg2 ->
  effects (iteration sink hook re msg1) k = effects (iteration sink hook re msg2) k.
Proof.
  intros Ht1 Ht2 Hd1 Hd2 HP Hf.
  pose proof (matched_perm re d1 d2 HP) as HM.
  destruct (matched re d1) as [|x l] eqn:E1.
  - apply Permutation_nil in HM. unfold effects.
    now rewrite (iteration_no_match sink hook re msg1 d1),
                (iteration_no_match sink hook re msg2 d2).
  - assert (matched re d1 <> []) as N1 by (rewrite E1; discriminate).
    assert (matched re d2 <> []) as N2.
    { intros E2. rewrite E2 in HM. now apply Permutation_sym, Permutation_nil in HM. }
    rewrite (effects_match sink hook re msg1 d1 k Ht1 Hd1 N1).
    rewrite (effects_match sink hook re msg2 d2 k Ht2 Hd2 N2).
    now rewrite Hf, (series_perm re d1 d2 HP).
Qed.

Lemma domain_order_irrelevant_witness :
  (certificate_update (update ["c.heptio.com"; "a.heptio.com"; "x.org"] "AA:BB") /\
   certificate_update (update ["x.org"; "a.heptio.com"; "c.heptio.com"] "AA:BB") /\
   Permutation ["c.heptio.com"; "a.heptio.com"; "x.org"]
               ["x.org"; "a.heptio.com"; "c.heptio.com"]) /\
  effects (iteration refused "hook" heptio
             (update ["c.heptio.com"; "a.heptio.com"; "x.org"] "AA:BB")) 0
  = effects (iteration refused "hook" heptio
               (update ["x.org"; "a.heptio.com"; "c.heptio.com"] "AA:BB")) 0.
Proof.
  assert (Permutation ["c.heptio.com"; "a.heptio.com"; "x.org"]
                      ["x.org"; "a.heptio.com"; "c.heptio.com"]) as HP.
  { apply perm_trans with ["a.heptio.com"; "c.heptio.com"; "x.org"];
      [apply perm_swap|].
    apply perm_trans with ["a.heptio.com"; "x.org"; "c.heptio.com"];
      [apply perm_skip, perm_swap | apply perm_swap]. }
  split; [split; [reflexivity | split; [reflexivity | exact HP]] |].
  exact (domain_order_irrelevant refused "hook" heptio
           (update ["c.heptio.com"; "a.heptio.com"; "x.org"] "AA:BB")
           (update ["x.org"; "a.heptio.com"; "c.heptio.com"] "AA:BB")
           ["c.heptio.com"; "a.heptio.com"; "x.org"]
           ["x.org"; "a.heptio.com"; "c.heptio.com"] 0
           eq_refl eq_refl eq_refl eq_refl HP eq_refl).
Defined.

(** X8. For a matching certificate_update whose fingerprint is read, the
    body posts first and then logs the errors that [slack.Send] returned,
    one entry for each, in their order, each with the fingerprint as it
    came (colons kept); a delivery without error leaves no log entry. *)
Theorem delivery_errors_logged_in_order
    (sink : nat -> list error) (hook : string) (re : Regexp)
    (msg : JSON) (domains : list string) (fp : string) (k : nat) :
  certificate_update msg ->
  all_domains msg = (domains, None) ->
  (exists d, In d domains /\ MatchString re d = true) ->
  fingerprint msg = (fp, None) ->
  effects (iteration sink hook re msg) k
  = Post hook "" (payloadFor (series domains (collect re domains)) (certURL fp))
    :: map (delivery_entry fp) (sink k) /\
  (sink k = [] -> length (effects (iteration sink hook re msg) k) = 1).
Proof.
  intros Ht Hd Hm Hf. apply matched_nonempty in Hm.
  rewrite (effects_match sink hook re msg domains k Ht Hd Hm), Hf, collect_matched.
  split; [reflexivity|]. now intros ->.
Qed.

Lemma delivery_errors_logged_in_order_witness :
  (certificate_update example_update /\
   all_domains example_update = (["a.heptio.com"; "b.other.com"; "c.heptio.com"], None) /\
   (exists d, In d ["a.heptio.com"; "b.other.com"; "c.heptio.com"] /\
              MatchString heptio d = true) /\
   fingerprint example_update = ("AA:BB:CC", None)) /\
  effects (iteration refused "hook" heptio example_update) 0
  = Post "hook" ""
      (payloadFor (series ["a.heptio.com"; "b.other.com"; "c.heptio.com"]
                     (collect heptio ["a.heptio.com"; "b.other.com"; "c.heptio.com"]))
                  (certURL "AA:BB:CC"))
    :: map (delivery_entry "AA:BB:CC") (refused 0).
Proof.
  assert (exists d, In d ["a.heptio.com"; "b.other.com"; "c.heptio.com"] /\
                    MatchString heptio d = true) as Hm
    by (exists "a.heptio.com"; split; [now left | reflexivity]).
  split; [split; [reflexivity | split; [reflexivity | split; [exact Hm | reflexivity]]] |].
  exact (proj1 (delivery_errors_logged_in_order refused "hook" heptio example_update
                  _ "AA:BB:CC" 0 eq_refl eq_refl Hm eq_refl)).
Defined.

(** ** The lookup URL *)

Lemma without_append (c : ascii) (a b : string) :
  without c (a ++ b) = (without c a ++ without c b)%string.
Proof.
  induction a as [|x a IH]; simpl; [reflexivity|].
  destruct (Ascii.eqb x c); simpl; now rewrite IH.
Qed.

Lemma without_absent (c : ascii) (s : string) : Count s c = 0 -> without c s = s.
Proof.
  induction s as [|x s IH]; simpl; [reflexivity|].
  destruct (Ascii.eqb x c); [discriminate|]. intros H. now rewrite IH.
Qed.

Lemma length_without (c : ascii) (s : string) :
  String.length (without c s) + Count s c = String.length s.
Proof.
  induction s as [|x s IH]; simpl; [reflexivity|].
  destruct (Ascii.eqb x c); simpl; lia.
Qed.

Lemma append_inj_l (a b c : string) : (a ++ b = a ++ c)%string -> b = c.
Proof.
  induction a as [|x a IH]; simpl; [auto|]. intros H. injection H as H. auto.
Qed.

(** X9. For a fingerprint written as byte pairs separated by colons, the
    lookup URL is the template followed by the pairs run together: no
    digit is lost or moved. *)
Theorem lookup_url_of_byte_pairs (pairs : list string) :
  Forall (fun pair => Count pair ":"%char = 0) pairs ->
  certURL (Join pairs ":") = ("https://crt.sh/?q=" ++ Join pairs "")%string.
Proof.
  intros H. unfold certURL. rewrite Replace_byte_empty. f_equal.
  induction H as [|p rest Hp Hrest IH]; [reflexivity|].
  destruct rest as [|q rest].
  - simpl. now apply without_absent.
  - change (Join (p :: q :: rest) ":") with (p ++ ":" ++ Join (q :: rest) ":")%string.
    change (Join (p :: q :: rest) "") with (p ++ "" ++ Join (q :: rest) "")%string.
    rewrite without_append, (without_absent _ _ Hp).
    f_equal. simpl. exact IH.
Qed.

Lemma lookup_url_of_byte_pairs_witness :
  Forall (fun pair => Count pair ":"%char = 0) ["AA"; "BB"; "CC"] /\
  certURL "AA:BB:CC" = "https://crt.sh/?q=AABBCC".
Proof.
  assert (Forall (fun pair => Count pair ":"%char = 0) ["AA"; "BB"; "CC"]) as H
    by (repeat constructor).
  split; [exact H|].
  exact (lookup_url_of_byte_pairs ["AA"; "BB"; "CC"] H).
Defined.

(** X10. The lookup URL depends on the fingerprint through its bytes
    other than colons only: two fingerprints give the same URL exactly
    when they agree once their colons are removed, and the URL is as long
    as the template and the fingerprint together, less the colons. *)
Theorem lookup_url_determined_by_digits (fp1 fp2 : string) :
  (certURL fp1 = certURL fp2 <-> without ":"%char fp1 = without ":"%char fp2) /\
  String.length (certURL fp1) + Count fp1 ":"%char = 18 + String.length fp1.
Proof.
  unfold certURL. rewrite !Replace_byte_empty. split.
  - split; [apply append_inj_l | now intros ->].
  - rewrite length_append. simpl String.length.
    pose proof (length_without ":"%char fp1). lia.
Qed.

(** ** The earlier [main] and the present one *)

Lemma anyMatch_existsb (re : Regexp) (domains : list string) :
  Earlier.anyMatch re domains = existsb (MatchString re) domains.
Proof.
  unfold Earlier.anyMatch.
  enough (forall acc,
    fold_left (fun found domain => found || MatchString re domain) domains acc
    = acc || existsb (MatchString re) domains) as H by apply (H false).
  induction domains as [|d ds IH]; intros acc; simpl.
  - now rewrite orb_false_r.
  - rewrite IH. now rewrite orb_assoc.
Qed.

Lemma format_decorate (domains : list string) :
  Earlier.format domains = map decorate domains.
Proof.
  unfold Earlier.format.
  enough (forall acc,
    fold_left (fun formattedDomains domain =>
                 formattedDomains ++ [("`" ++ domain ++ "`")%string]) domains acc
    = acc ++ map decorate domains) as H by apply (H []).
  induction domains as [|d ds IH]; intros acc; simpl.
  - now rewrite app_nil_r.
  - rewrite IH. now rewrite <- app_assoc.
Qed.

Lemma existsb_matched (re : Regexp) (domains : list string) :
  existsb (MatchString re) domains = negb (length (matched re domains) =? 0)%nat.
Proof.
  unfold matched. induction domains as [|d ds IH]; simpl; [reflexivity|].
  destruct (MatchString re d); simpl; [reflexivity | exact IH].
Qed.

Lemma matching_true (re : Regexp) (msg : JSON) :
  matching re msg = true ->
  certificate_update msg /\
  all_domains msg = (fst (all_domains msg), None) /\
  matched re (fst (all_domains msg)) <> [].
Proof.
  unfold matching, certificate_update. intros H.
  apply andb_true_iff in H as [Ht H]. apply String.eqb_eq in Ht.
  destruct (all_domains msg) as [domains [e|]]; [discriminate|]. simpl in *.
  split; [exact Ht|]. split; [reflexivity|].
  rewrite existsb_matched in H. destruct (matched re domains); [discriminate|].
  discriminate.
Qed.

Section Versions.

Variable sink : nat -> list error.
Variable hook : string.
Variable re : Regexp.

(** The earlier body on a matching message, and on any other message,
    where it does what the present body does. *)
Lemma earlier_iteration_spec (msg : JSON) (p : Proc) :
  Earlier.iteration sink hook re msg p
  = if matching re msg
    then (tt, {| trace :=
                   trace p
                   ++ match snd (fingerprint msg) with
                      | Some e => [fingerprint_entry e]
                      | None => []
                      end
                   ++ Post hook ""
                        (Earlier.payloadFor (map decorate (fst (all_domains msg)))
                                            (fst (fingerprint msg)))
                   :: map (delivery_entry (fst (fingerprint msg))) (sink (posts p));
                 posts := S (posts p) |})
    else iteration sink hook re msg p.
Proof.
  unfold matching, message_type, all_domains, fingerprint, Earlier.iteration, iteration.
  destruct (jsonq.String msg ["message_type"]) as [t e0]. simpl fst.
  destruct (t =? "certificate_update")%string; simpl; [|reflexivity].
  destruct (jsonq.ArrayOfStrings msg _) as [domains [e|]]; simpl; [reflexivity|].
  rewrite anyMatch_existsb, collect_matched, existsb_matched.
  destruct (matched re domains) as [|d ds] eqn:E; simpl; [reflexivity|].
  rewrite format_decorate.
  destruct (jsonq.String msg ["data"; "leaf_cert"; "fingerprint"]) as [fp [e|]];
    unfold bind, log_Error, emit, ret, slack_Send; simpl;
    rewrite (for_range_emits _ (delivery_entry fp)) by reflexivity; simpl;
    repeat rewrite <- app_assoc; reflexivity.
Qed.

Lemma iteration_spec (msg : JSON) (p : Proc) :
  matching re msg = true ->
  iteration sink hook re msg p
  = (tt, {| trace :=
              trace p
              ++ match snd (fingerprint msg) with
                 | Some e => [fingerprint_entry e]
                 | None => []
                 end
              ++ Post hook ""
                   (payloadFor (series (fst (all_domains msg))
                                  (map decorate (matched re (fst (all_domains msg)))))
                               (certURL (fst (fingerprint msg))))
              :: map (delivery_entry (fst (fingerprint msg))) (sink (posts p));
            posts := S (posts p) |}).
Proof.
  intros H. apply matching_true in H as (Ht & Hd & Hm).
  now apply iteration_match.
Qed.




End Versions.


(** X12. For a certificate_update with at least one matching domain, the
    earlier body posts one notification whose text lists every domain of
    the certificate, matching or not, each in backticks, in the order of
    the certificate and separated by commas, before the same lookup URL. *)
Theorem earlier_notification_lists_all_domains
    (sink : nat -> list error) (hook : string) (re : Regexp)
    (msg : JSON) (domains : list string) (k : nat) :
  certificate_update msg ->
  all_domains msg = (domains, None) ->
  (exists d, In d domains /\ MatchString re d = true) ->
  notifications (effects (Earlier.iteration sink hook re msg) k)
  = [Post hook ""
       {| Text := notification_text (Join (map decorate domains) ",")
                                    (certURL (fst (fingerprint msg))) |}].
Proof.
  intros Ht Hd Hm. apply matched_nonempty in Hm.
  assert (matching re msg = true) as Hmatching.
  { rewrite (matching_matched re msg domains Ht Hd).
    destruct (matched re domains); [congruence | reflexivity]. }
  unfold effects. rewrite earlier_iteration_spec, Hmatching, Hd. simpl.
  rewrite notifications_app. simpl. rewrite notifications_delivery.
  destruct (snd (fingerprint msg)); reflexivity.
Qed.

Lemma earlier_notification_lists_all_domains_witness :
  (certificate_update example_update /\
   all_domains example_update = (["a.heptio.com"; "b.other.com"; "c.heptio.com"], None) /\
   exists d, In d ["a.heptio.com"; "b.other.com"; "c.heptio.com"] /\
             MatchString heptio d = true) /\
  notifications (effects (Earlier.iteration delivered "hook" heptio example_update) 0)
  = [Post "hook" ""
       {| Text := "Found matching certificate for `a.heptio.com`,`b.other.com`,`c.heptio.com`: https://crt.sh/?q=AABBCC" |}].
Proof.
  assert (exists d, In d ["a.heptio.com"; "b.other.com"; "c.heptio.com"] /\
                    MatchString heptio d = true) as Hm
    by (exists "a.heptio.com"; split; [now left | reflexivity]).
  split; [split; [reflexivity | split; [reflexivity | exact Hm]] |].
  exact (earlier_notification_lists_all_domains delivered "hook" heptio example_update
           ["a.heptio.com"; "b.other.com"; "c.heptio.com"] 0 eq_refl eq_refl Hm).
Defined.

(** X13. On a certificate_update with a single domain the two bodies agree
    altogether: the earlier body and the present one produce the same
    effects, and when the domain matches the same notification text. *)
Theorem single_domain_same_notification
    (sink : nat -> list error) (hook : string) (re : Regexp)
    (msg : JSON) (d : string) (k : nat) :
  certificate_update msg ->
  all_domains msg = ([d], None) ->
  effects (Earlier.iteration sink hook re msg) k = effects (iteration sink hook re msg) k.
Proof.
  intros Ht Hd. unfold effects. rewrite earlier_iteration_spec.
  destruct (matching re msg) eqn:Hm; [|reflexivity].
  rewrite (iteration_spec sink hook re msg _ Hm), Hd. simpl.
  rewrite (matching_matched re msg [d] Ht Hd) in Hm.
  unfold matched in *. simpl in *.
  destruct (MatchString re d); [|discriminate]. reflexivity.
Qed.

Lemma single_domain_same_notification_witness :
  (certificate_update (update ["a.heptio.com"] "AA:BB") /\
   all_domains (update ["a.heptio.com"] "AA:BB") = (["a.heptio.com"], None)) /\
  effects (Earlier.iteration refused "hook" heptio (update ["a.heptio.com"] "AA:BB")) 0
  = effects (iteration refused "hook" heptio (update ["a.heptio.com"] "AA:BB")) 0.
Proof.
  split; [split; reflexivity|].
  exact (single_domain_same_notification refused "hook" heptio
           (update ["a.heptio.com"] "AA:BB") "a.heptio.com" 0 eq_refl eq_refl).
Defined.

(** ** The entries of the series *)

Lemma append_inj_r (a : string) :
  forall b c, (a ++ String c "" = b ++ String c "")%string -> a = b.
Proof.
  induction a as [|x a IH]; intros [|y b] c H; simpl in H.
  - reflexivity.
  - injection H as _ H. destruct b; discriminate.
  - injection H as _ H. destruct a; discriminate.
  - injection H as -> H. f_equal. now apply (IH b c).
Qed.

Lemma decorate_inj (a b : string) : decorate a = decorate b -> a = b.
Proof.
  unfold decorate. simpl. intros H. injection H as H. now apply append_inj_r in H.
Qed.

Lemma count_occ_decorated (re : Regexp) (d : string) (domains : list string) :
  MatchString re d = true ->
  count_occ string_dec (map decorate (matched re domains)) (decorate d)
  = count_occ string_dec domains d.
Proof.
  intros Hd. unfold matched.
  induction domains as [|x l IH]; [reflexivity|].
  cbn [filter].
  destruct (string_dec x d) as [->|Hne].
  - rewrite Hd. cbn [map].
    rewrite !count_occ_cons_eq by reflexivity. now rewrite IH.
  - rewrite (count_occ_cons_neq string_dec l Hne).
    destruct (MatchString re x); cbn [map]; [|exact IH].
    rewrite count_occ_cons_neq; [exact IH|].
    intros E. now apply decorate_inj in E.
Qed.

(** X14. The list joined into the series has one entry for each matching
    domain and one more when some domain does not match, so never more
    entries than the certificate has domains. *)
Theorem series_length (re : Regexp) (domains : list string) :
  length (series domains (collect re domains))
  = length (matched re domains)
    + (if (length (matched re domains) <? length domains)%nat then 1 else 0) /\
  length (series domains (collect re domains)) <= length domains.
Proof.
  rewrite collect_matched, series_matched, length_app, sort_Strings_length, length_map.
  pose proof (matched_length re domains) as Hle.
  destruct (length (matched re domains) <? length domains)%nat eqn:E; simpl.
  - apply Nat.ltb_lt in E. lia.
  - lia.
Qed.

(** X15. Matching domains are not deduplicated: a domain that the pattern
    matches is listed in the series, wrapped in backticks, as many times
    as the certificate names it. *)
Theorem repeated_domains_repeated (re : Regexp) (domains : list string) (d : string) :
  MatchString re d = true ->
  count_occ string_dec (series domains (collect re domains)) (decorate d)
  = count_occ string_dec domains d.
Proof.
  intros Hd.
  rewrite collect_matched, series_matched, count_occ_app.
  rewrite (proj1 (Permutation_count_occ string_dec _ _) (sort_Strings_perm _)).
  rewrite (count_occ_decorated re d domains Hd).
  destruct (_ <? _)%nat; [|cbn [count_occ]; lia].
  rewrite count_occ_cons_neq; [cbn [count_occ]; lia|].
  intros E. symmetry in E. now apply others_not_decorated in E.
Qed.

Lemma repeated_domains_repeated_witness :
  MatchString heptio "a.heptio.com" = true /\
  count_occ string_dec
    (series ["a.heptio.com"; "x.org"; "a.heptio.com"]
       (collect heptio ["a.heptio.com"; "x.org"; "a.heptio.com"]))
    (decorate "a.heptio.com") = 2.
Proof.
  split; [reflexivity|].
  exact (repeated_domains_repeated heptio ["a.heptio.com"; "x.org"; "a.heptio.com"]
           "a.heptio.com" eq_refl).
Defined.
